(** * The dashboard executor of powerpipe

    A shallow embedding of [internal/dashboardexecute/executor.go]: the
    registry of execution trees keyed by session id, the batch-mode input
    validation, the clearing of dependent inputs, and the lifecycle
    operations [ExecuteDashboard], [OnInputChanged] and
    [CancelExecutionForSession].

    Go maps are finite maps ([gmap]); the trees held by pointer in the
    registry live in an explicit heap; every effect of an operation (mutex
    operations, accesses to the registry, published events, calls on a tree,
    the spawned goroutine) is appended to a trace in program order. *)

From Stdlib Require Import Ascii String ZArith.
From stdpp Require Import gmap strings list fin_maps.

Open Scope string_scope.
Open Scope list_scope.
Open Scope nat_scope.

(** ** Data *)

(** A non-nil Go value of type [any], as it arrives in an input map. *)
#[warnings="-register-all"]
Inductive value :=
  | VBool (b : bool)
  | VNum (z : Z)
  | VStr (s : string)
  | VList (l : list value).

(** Go's [any]: [None] is the nil interface value. *)
Abbreviation any := (option value).

(** [map[string]any]: a key can be absent, present with nil, or present with
    a value. *)
Abbreviation Inputs := (gmap string any).

(** [inputs[name]]: indexing a Go map gives the zero value (nil) when the key
    is absent. *)
Definition index (inputs : Inputs) (name : string) : any :=
  default None (inputs !! name).

(** [v != nil] *)
Definition not_nil (v : any) : bool :=
  match v with
  | Some _ => true
  | None => false
  end.

(** [inputs[name] != nil] *)
Definition non_nil (inputs : Inputs) (name : string) : bool :=
  not_nil (index inputs name).

(** A Go [error], identified with the text its [Error()] method returns. *)
Definition error := string.

(** [dashboardtypes.DashboardTreeRun], the interface of the root of a tree:
    the two methods the executor calls. [GetInputsDependingOn] gives the
    declared dependents of an input; the slice it returns is taken to be a
    new one at each call, so that a list stands for it. *)
Record DashboardTreeRun := {
  GetInputsDependingOn : string → list string;
  GetResource : string
}.

(** ** Clearing dependent inputs *)

(** The body of the [for _, inputName := range dependentInputs] loop of
    [clearDependentInputs], over the elements still to visit. [rec] is the
    recursive call, [clearedInputs] and [inputs] are the two variables the
    loop updates. *)
Fixpoint clearLoop (rec : string → Inputs → option (list string * Inputs))
    (dependentInputs : list string) (clearedInputs : list string)
    (inputs : Inputs) : option (list string * Inputs) :=
  match dependentInputs with
  | [] => Some (clearedInputs, inputs)
  | inputName :: rest =>
      if non_nil inputs inputName then
        match rec inputName (<[inputName := None]> inputs) with
        | Some (childDependentInputs, inputs') =>
            clearLoop rec rest (clearedInputs ++ childDependentInputs) inputs'
        | None => None
        end
      else clearLoop rec rest clearedInputs inputs
  end.

(** [clearDependentInputs] with a bound on the depth of the recursion; [None]
    when the bound is reached. The map is mutated in place by the source, so
    it is returned next to the list. *)
Fixpoint clearDependentInputs_fuel (fuel : nat) (root : DashboardTreeRun)
    (changedInput : string) (inputs : Inputs) : option (list string * Inputs) :=
  match fuel with
  | O => None
  | S fuel' =>
      let dependentInputs := GetInputsDependingOn root changedInput in
      let clearedInputs := dependentInputs in
      if 0 <? length dependentInputs then
        clearLoop (clearDependentInputs_fuel fuel' root)
          dependentInputs clearedInputs inputs
      else Some (clearedInputs, inputs)
  end.

(** The number of inputs that hold a non-nil value: each recursive call is
    made on a map with one fewer. *)
Definition live (inputs : Inputs) : nat := size (omap id inputs).

(** [clearDependentInputs], run with the depth the map allows. *)
Definition clearDependentInputs (root : DashboardTreeRun)
    (changedInput : string) (inputs : Inputs) : list string * Inputs :=
  default ([], inputs)
    (clearDependentInputs_fuel (S (live inputs)) root changedInput inputs).

(** ** Declared dependencies as a graph *)

(** [y] is a declared dependent of [x]. *)
Definition dependent (root : DashboardTreeRun) (x y : string) : Prop :=
  y ∈ GetInputsDependingOn root x.

(** The transitive closure of [dependent]. *)
Inductive closure (root : DashboardTreeRun) : string → string → Prop :=
  | closure_one x y : dependent root x y → closure root x y
  | closure_step x z y :
      dependent root x z → closure root z y → closure root x y.

(** [y] is reached from [x] along declared dependencies, every input strictly
    between them holding a non-nil value in [inputs]. *)
Inductive reach (root : DashboardTreeRun) (inputs : Inputs)
    : string → string → Prop :=
  | reach_one x y : dependent root x y → reach root inputs x y
  | reach_step x z y :
      dependent root x z → non_nil inputs z = true →
      reach root inputs z y → reach root inputs x y.

(** ** Contracts of the clearing

    The properties below are stated through these. *)

(** [nulled m m']: [m'] is [m] with some of its non-nil entries set to nil. *)
Definition nulled (m m' : Inputs) : Prop :=
  ∀ k, m' !! k = m !! k ∨ (non_nil m k = true ∧ m' !! k = Some None).

(** The contract of the loop over [l], started on the map [m]: [E] is what
    the loop appends to [clearedInputs], [m'] is the map it leaves. *)
Record loop_spec (root : DashboardTreeRun) (l : list string) (m : Inputs) (E : list string)
    (m' : Inputs) : Prop := {
  loop_nil : ∀ y, y ∈ l ∨ y ∈ E → non_nil m' y = false;
  loop_closed : ∀ n y, non_nil m n = true → non_nil m' n = false →
      dependent root n y → y ∈ E;
  loop_nulled : nulled m m';
  loop_sound : ∀ y, y ∈ E →
      ∃ d, d ∈ l ∧ non_nil m d = true ∧ reach root m d y;
  loop_listed : ∀ n, non_nil m n = true → non_nil m' n = false →
      n ∈ l ∨ n ∈ E
}.

(** The contract of a call on [x] with the map [m]: [C] is the returned
    list, [m'] the map after the call. *)
Record clears (root : DashboardTreeRun) (x : string) (m : Inputs) (C : list string)
    (m' : Inputs) : Prop := {
  clears_direct : ∀ y, dependent root x y → y ∈ C;
  clears_nil : ∀ y, y ∈ C → non_nil m' y = false;
  clears_closed : ∀ n y, non_nil m n = true → non_nil m' n = false →
      dependent root n y → y ∈ C;
  clears_nulled : nulled m m';
  clears_sound : ∀ y, y ∈ C → reach root m x y;
  clears_listed : ∀ n, non_nil m n = true → non_nil m' n = false → n ∈ C
}.

(** The property of [clearDependentInputs] in the words of the spec: the
    returned inputs are the transitive closure of the declared dependents of
    the changed input, restricted to the inputs that hold a non-nil value,
    and each of them reads as nil afterwards. *)
Definition returns_live_closure (root : DashboardTreeRun)
    (changedInput : string) (inputs : Inputs) : Prop :=
  let r := clearDependentInputs root changedInput inputs in
  (∀ y, y ∈ r.1 ↔ closure root changedInput y ∧ non_nil inputs y = true) ∧
  (∀ y, y ∈ r.1 → index r.2 y = None).

(** A root whose declared dependencies are given by an adjacency list. *)
Definition graph_root (edges : list (string * list string)) : DashboardTreeRun :=
  {| GetInputsDependingOn x :=
       default [] ((list_to_map edges : gmap string (list string)) !! x);
     GetResource := "dashboard.root" |}.

(** ** Trees, events and the executor *)

(** Modelled from the spec: [dashboardtypes.RunStatus] is declared in the
    package [dashboardtypes]; the spec gives the run status values:
    initialized, blocked, running, complete, error, cancelled. *)
Inductive RunStatus :=
  | RunInitialized | RunBlocked | RunRunning
  | RunComplete | RunError | RunCanceled.

(** Modelled from the spec: [IsFinished] is a method of
    [dashboardtypes.RunStatus]; the spec names the terminal statuses:
    complete, error, cancelled. *)
Definition IsFinished (s : RunStatus) : bool :=
  match s with
  | RunComplete | RunError | RunCanceled => true
  | RunInitialized | RunBlocked | RunRunning => false
  end.

(** Handles of objects the executor only passes around. *)
Abbreviation Workspace := string (only parsing).
Abbreviation ClientMap := string (only parsing).
Abbreviation ConnectOption := string (only parsing).
Abbreviation Time := Z (only parsing).

(** [DashboardExecutionTree]: the fields [OnInputChanged] reads, and what the
    two getters [GetRunStatus] and [InputRuntimeDependencies] return. *)
Record DashboardExecutionTree := {
  Root : DashboardTreeRun;
  tree_id : string;
  tree_sessionId : string;
  tree_workspace : Workspace;
  inputValues : Inputs;
  GetRunStatus : RunStatus;
  InputRuntimeDependencies : list string
}.

(** A pointer to a tree. *)
Abbreviation ptr := nat (only parsing).

(** [context.Context]: what [ctx.Err()] returns. *)
Record Context := { Err : option error }.

Definition DeadlineExceeded : error := "context deadline exceeded".
Definition Canceled : error := "context canceled".

(** The two events the executor itself publishes. *)
Inductive DashboardEvent :=
  | ExecutionError (Error : error) (Session : string) (Timestamp : Time)
  | InputValuesCleared (ClearedInputs : list string) (Session : string)
      (ExecutionId : string).

(** The effects of the executor, in program order. *)
Inductive Action :=
  | Lock                                  (* e.executionLock.Lock() *)
  | Unlock                                (* e.executionLock.Unlock() *)
  | MapRead (sessionId : string)          (* read of e.executions[sessionId] *)
  | MapWrite (sessionId : string)         (* e.executions[sessionId] = tree *)
  | MapDelete (sessionId : string)        (* delete(e.executions, sessionId) *)
  | Publish (w : Workspace) (event : DashboardEvent)
  | TreeCancel (t : ptr)                  (* executionTree.Cancel() *)
  | TreeSetInputValues (t : ptr) (inputs : Inputs)
  | GoExecute (t : ptr) (ctx : Context).  (* go executionTree.Execute(ctx) *)

Record DashboardExecutor := {
  executions : gmap string ptr;
  interactive : bool;
  defaultClient : ClientMap
}.

Definition NewDashboardExecutor (defaultClient : ClientMap) : DashboardExecutor :=
  {| executions := ∅;
     interactive := true;
     defaultClient := defaultClient |}.

(** The executor, the trees its registry points to, the clock and the trace
    of effects so far. *)
Record World := {
  executor : DashboardExecutor;
  heap : gmap ptr DashboardExecutionTree;
  clock : Time;
  trace : list Action
}.

Definition with_executions (f : gmap string ptr → gmap string ptr) (w : World) : World :=
  {| executor := {| executions := f (executions (executor w));
                    interactive := interactive (executor w);
                    defaultClient := defaultClient (executor w) |};
     heap := heap w; clock := clock w; trace := trace w |}.

Definition with_heap
    (f : gmap ptr DashboardExecutionTree → gmap ptr DashboardExecutionTree)
    (w : World) : World :=
  {| executor := executor w; heap := f (heap w); clock := clock w;
     trace := trace w |}.

Definition with_trace (f : list Action → list Action) (w : World) : World :=
  {| executor := executor w; heap := heap w; clock := clock w;
     trace := f (trace w) |}.

(** *** A state monad over the world *)

Definition M (A : Type) : Type := World → A * World.

#[global] Instance M_ret : MRet M := λ A a w, (a, w).
#[global] Instance M_bind : MBind M := λ A B f c w, let '(a, w') := c w in f a w'.

Definition gets {A} (f : World → A) : M A := λ w, (f w, w).
Definition modify (f : World → World) : M unit := λ w, (tt, f w).
Definition emit (a : Action) : M unit := modify (with_trace (λ t, t ++ [a])).

(** The events published so far. *)
Definition published (w : World) : list (Workspace * DashboardEvent) :=
  omap (λ a, match a with Publish ws ev => Some (ws, ev) | _ => None end) (trace w).

(** ** The registry *)

Definition getExecution (sessionId : string) : M (option ptr) :=
  emit Lock;;
  emit (MapRead sessionId);;
  found ← gets (λ w, executions (executor w) !! sessionId);
  emit Unlock;;
  mret found.

Definition setExecution (sessionId : string) (executionTree : ptr) : M unit :=
  emit Lock;;
  emit (MapWrite sessionId);;
  modify (with_executions (insert sessionId executionTree));;
  emit Unlock.

Definition removeExecution (sessionId : string) : M unit :=
  emit Lock;;
  emit (MapDelete sessionId);;
  modify (with_executions (delete sessionId));;
  emit Unlock.

(** ** Batch-mode validation *)

(** Modelled from the spec: [utils.Pluralize] belongs to the library
    pipe-fittings; the spec says that the word is pluralized according to
    the count: the word itself for a count of one, the word followed by s
    otherwise. *)
Definition Pluralize (base : string) (count : nat) : string :=
  if count =? 1 then base else base +:+ "s".

(** [strings.Join] *)
Definition Join (elems : list string) (sep : string) : string :=
  String.concat sep elems.

(** The loop of [validateInputs]: the names with no key in [inputs]. *)
Definition missing (inputs : Inputs) (deps : list string) : list string :=
  filter (λ inputName, inputs !! inputName = None) deps.

Definition validateInputs (e : DashboardExecutor)
    (executionTree : DashboardExecutionTree) (inputs : Inputs) : option error :=
  if interactive e then None
  else
    let missingInputs := missing inputs (InputRuntimeDependencies executionTree) in
    let missingCount := length missingInputs in
    if 0 <? missingCount then
      Some (Pluralize "input" missingCount +:+ " '" +:+ Join missingInputs ","
            +:+ "' must be provided using '--arg name=value'")
    else None.

(** ** The operations *)

(** What [OnInputChanged] does: returns an error or nil, or panics on a
    registry entry that points to no tree. *)
Inductive Outcome :=
  | Returned (err : option error)
  | Panicked.

(** The effects of [CancelExecutionForSession] when the lookup of the session
    gives [found]. *)
Definition cancel_trace (sessionId : string) (found : option ptr) : list Action :=
  [Lock; MapRead sessionId; Unlock] ++
  match found with
  | Some t => [TreeCancel t; Lock; MapDelete sessionId; Unlock]
  | None => []
  end.

(** The parts of [DashboardExecutionTree] the executor calls and that are
    defined with the tree, in another file of the package: its constructor
    and the two methods that change it. The properties hold whatever they
    are. *)
Class TreeMethods := {
  newDashboardExecutionTree :
    string → string → Workspace → ClientMap → list ConnectOption →
    DashboardExecutionTree + error;
  Cancel : DashboardExecutionTree → DashboardExecutionTree;
  SetInputValues : Inputs → DashboardExecutionTree → DashboardExecutionTree
}.

Section Executor.
Context {trees : TreeMethods}.

(** [executionTree.Cancel()] on the tree at [t] *)
Definition callCancel (t : ptr) : M unit :=
  emit (TreeCancel t);;
  modify (with_heap (alter Cancel t)).

(** [executionTree.SetInputValues(inputs)] on the tree at [t] *)
Definition callSetInputValues (t : ptr) (inputs : Inputs) : M unit :=
  emit (TreeSetInputValues t inputs);;
  modify (with_heap (alter (SetInputValues inputs) t)).

(** A new tree is placed at an address not in use. *)
Definition alloc (tree : DashboardExecutionTree) : M ptr :=
  t ← gets (λ w, fresh (dom (heap w)));
  modify (with_heap (insert t tree));;
  mret t.

Definition CancelExecutionForSession (ctx : Context) (sessionId : string) : M unit :=
  found ← getExecution sessionId;
  match found with
  | None => mret tt
  | Some executionTree =>
      callCancel executionTree;;
      removeExecution sessionId
  end.

(** The body of [ExecuteDashboard], up to its [return]. *)
Definition ExecuteDashboard_body (ctx : Context) (sessionId : string)
    (rootResource : string) (inputs : Inputs) (workspace : Workspace)
    (opts : list ConnectOption) : M (option error) :=
  CancelExecutionForSession ctx sessionId;;
  e ← gets executor;
  match newDashboardExecutionTree rootResource sessionId workspace
          (defaultClient e) opts with
  | inr err => mret (Some err)
  | inl tree =>
      executionTree ← alloc tree;
      match validateInputs e tree inputs with
      | Some err => mret (Some err)
      | None =>
          setExecution sessionId executionTree;;
          (if 0 <? size inputs
           then callSetInputValues executionTree inputs
           else mret tt);;
          emit (GoExecute executionTree ctx);;
          mret None
      end
  end.

(** The deferred function of [ExecuteDashboard], run on the error [err] the
    body returned. *)
Definition ExecuteDashboard_deferred (ctx : Context) (sessionId : string)
    (workspace : Workspace) (err : option error) : M (option error) :=
  let err :=
    match err, Err ctx with
    | None, Some ctxErr =>
        if String.eqb ctxErr DeadlineExceeded
        then Some "execution timed out"
        else Some ctxErr
    | _, _ => err
    end in
  match err with
  | Some e =>
      now ← gets clock;
      emit (Publish workspace (ExecutionError e sessionId now));;
      mret (Some e)
  | None => mret None
  end.

Definition ExecuteDashboard (ctx : Context) (sessionId : string)
    (rootResource : string) (inputs : Inputs) (workspace : Workspace)
    (opts : list ConnectOption) : M (option error) :=
  err ← ExecuteDashboard_body ctx sessionId rootResource inputs workspace opts;
  ExecuteDashboard_deferred ctx sessionId workspace err.

Definition OnInputChanged (ctx : Context) (sessionId : string)
    (inputs : Inputs) (changedInput : string) : M Outcome :=
  emit (MapRead sessionId);;
  found ← gets (λ w, executions (executor w) !! sessionId);
  match found with
  | None =>
      mret (Returned (Some ("no dashboard running for session " +:+ sessionId)))
  | Some t =>
      deref ← gets (λ w, heap w !! t);
      match deref with
      | None => mret Panicked
      | Some executionTree =>
          let inputPrevValue := index (inputValues executionTree) changedInput in
          let '(clearedInputs, inputs) :=
            clearDependentInputs (Root executionTree) changedInput inputs in
          (if 0 <? length clearedInputs
           then emit (Publish (tree_workspace executionTree)
                        (InputValuesCleared clearedInputs
                           (tree_sessionId executionTree)
                           (tree_id executionTree)))
           else mret tt);;
          if IsFinished (GetRunStatus executionTree) || not_nil inputPrevValue
          then
            err ← ExecuteDashboard ctx sessionId
                    (GetResource (Root executionTree)) inputs
                    (tree_workspace executionTree) [];
            mret (Returned err)
          else
            callSetInputValues t inputs;;
            mret (Returned None)
      end
  end.

(** The world [CancelExecutionForSession] leaves. *)
Definition cancelled (sessionId : string) (w : World) : World :=
  let found := executions (executor w) !! sessionId in
  {| executor := {| executions := delete sessionId (executions (executor w));
                    interactive := interactive (executor w);
                    defaultClient := defaultClient (executor w) |};
     heap := match found with
             | Some t => alter Cancel t (heap w)
             | None => heap w
             end;
     clock := clock w;
     trace := trace w ++ cancel_trace sessionId found |}.

(** The world [ExecuteDashboard_body] leaves when it registers [tree] and
    starts it. *)
Definition started (ctx : Context) (sessionId : string) (inputs : Inputs)
    (tree : DashboardExecutionTree) (w : World) : World :=
  let w0 := cancelled sessionId w in
  let t := fresh (dom (heap w0)) in
  {| executor := {| executions := <[sessionId := t]> (executions (executor w0));
                    interactive := interactive (executor w);
                    defaultClient := defaultClient (executor w) |};
     heap := if 0 <? size inputs
             then alter (SetInputValues inputs) t (<[t := tree]> (heap w0))
             else <[t := tree]> (heap w0);
     clock := clock w;
     trace := trace w0 ++ [Lock; MapWrite sessionId; Unlock] ++
              (if 0 <? size inputs then [TreeSetInputValues t inputs] else []) ++
              [GoExecute t ctx] |}.
End Executor.

(** The effects an operation adds to the trace of [w]. *)
Definition effects {A} (c : M A) (w : World) : list Action :=
  drop (length (trace w)) (trace (c w).2).

(** ** The lock discipline *)

(** [disciplined held t]: along the trace [t], started with the mutex held
    or not, the mutex is locked only when free and unlocked only when held,
    the registry is accessed only with the mutex held, no call on a tree and
    no goroutine is started with the mutex held, and the mutex is free at
    the end. *)
Fixpoint disciplined (held : bool) (t : list Action) : bool :=
  match t with
  | [] => negb held
  | Lock :: t => negb held && disciplined true t
  | Unlock :: t => held && disciplined false t
  | (MapRead _ | MapWrite _ | MapDelete _) :: t => held && disciplined held t
  | (TreeCancel _ | TreeSetInputValues _ _ | GoExecute _ _) :: t =>
      negb held && disciplined held t
  | Publish _ _ :: t => disciplined held t
  end.

(** ** Concrete trees *)

(** Modelled from the spec: [SetInputValues] is a method of the tree,
    defined with it; by the spec it stores the new value of each input name
    it is given. *)
Definition storeInputValues (inputs : Inputs) (t : DashboardExecutionTree)
    : DashboardExecutionTree :=
  {| Root := Root t; tree_id := tree_id t; tree_sessionId := tree_sessionId t;
     tree_workspace := tree_workspace t;
     inputValues := inputs ∪ inputValues t;
     GetRunStatus := GetRunStatus t;
     InputRuntimeDependencies := InputRuntimeDependencies t |}.

(** Modelled from the spec: [Cancel] is a method of the tree, defined with
    it; by the spec a tree that is not yet in a terminal status ends
    cancelled. *)
Definition cancelTree (t : DashboardExecutionTree) : DashboardExecutionTree :=
  {| Root := Root t; tree_id := tree_id t; tree_sessionId := tree_sessionId t;
     tree_workspace := tree_workspace t;
     inputValues := inputValues t;
     GetRunStatus := if IsFinished (GetRunStatus t) then GetRunStatus t else RunCanceled;
     InputRuntimeDependencies := InputRuntimeDependencies t |}.

(** A constructor that knows two dashboards: one with the inputs A, B
    (depends on A) and C (depends on B), one with the single input region. *)
Definition buildTree (rootResource sessionId : string) (workspace : Workspace)
    (client : ClientMap) (opts : list ConnectOption)
    : DashboardExecutionTree + error :=
  if String.eqb rootResource "dashboard.cascade" then
    inl {| Root := {| GetInputsDependingOn :=
                        GetInputsDependingOn (graph_root [("A", ["B"]); ("B", ["C"])]);
                      GetResource := rootResource |};
           tree_id := "exec-" +:+ sessionId; tree_sessionId := sessionId;
           tree_workspace := workspace; inputValues := ∅;
           GetRunStatus := RunInitialized;
           InputRuntimeDependencies := ["A"; "B"; "C"] |}
  else if String.eqb rootResource "dashboard.region" then
    inl {| Root := {| GetInputsDependingOn := λ _, [];
                      GetResource := rootResource |};
           tree_id := "exec-" +:+ sessionId; tree_sessionId := sessionId;
           tree_workspace := workspace; inputValues := ∅;
           GetRunStatus := RunInitialized;
           InputRuntimeDependencies := ["region"] |}
  else inr ("resource " +:+ rootResource +:+ " not found").

(** A cyclic declaration: B and C depend on A, C on B, and A on C. *)
Definition cyclic_root : DashboardTreeRun :=
  graph_root [("A", ["B"; "C"]); ("B", ["C"]); ("C", ["A"])].

(** All three inputs set. *)
Definition abc_inputs : Inputs :=
  <["A" := Some (VStr "x")]> (<["B" := Some (VStr "y")]> (<["C" := Some (VStr "z")]> ∅)).

Definition specTrees : TreeMethods :=
  {| newDashboardExecutionTree := buildTree;
     Cancel := cancelTree;
     SetInputValues := storeInputValues |}.

(** The world of a fresh executor. *)
Definition newWorld (interactive : bool) : World :=
  {| executor := {| executions := ∅; interactive := interactive;
                    defaultClient := "default" |};
     heap := ∅; clock := 0%Z; trace := [] |}.

(** The world after a first request for the cascade dashboard in session s1,
    without inputs and with the three inputs set. *)
Definition blank_world : World :=
  (ExecuteDashboard (trees := specTrees) {| Err := None |} "s1"
     "dashboard.cascade" ∅ "ws" [] (newWorld true)).2.

Definition seeded_world : World :=
  (ExecuteDashboard (trees := specTrees) {| Err := None |} "s1"
     "dashboard.cascade" abc_inputs "ws" [] (newWorld true)).2.

Definition background : Context := {| Err := None |}.
Definition expired : Context := {| Err := Some DeadlineExceeded |}.

(** ** Invariants of the world *)

(** Every entry of the registry points to a tree of the heap. *)
Definition registry_allocated (w : World) : Prop :=
  ∀ sessionId t,
    executions (executor w) !! sessionId = Some t → is_Some (heap w !! t).

(** No two sessions share a tree. *)
Definition registry_distinct (w : World) : Prop :=
  ∀ s1 s2 t,
    executions (executor w) !! s1 = Some t →
    executions (executor w) !! s2 = Some t → s1 = s2.

Definition consistent (w : World) : Prop :=
  registry_allocated w ∧ registry_distinct w.

(** An acyclic declaration: B and C depend on A, D on B. *)
Definition tree_root : DashboardTreeRun :=
  graph_root [("A", ["B"; "C"]); ("B", ["D"])].

(** [w'] differs from [w] in the registry at [sessionId] at most: the mode,
    the default client, the clock and the entries of the other sessions are
    the same. *)
Definition elsewhere_unchanged (sessionId : string) (w w' : World) : Prop :=
  interactive (executor w') = interactive (executor w) ∧
  defaultClient (executor w') = defaultClient (executor w) ∧
  clock w' = clock w ∧
  ∀ s, s ≠ sessionId →
    executions (executor w') !! s = executions (executor w) !! s.

(** The trees of the sessions other than [sessionId] are the same in [w']
    as in [w]. *)
Definition other_trees_unchanged (sessionId : string) (w w' : World) : Prop :=
  ∀ s p, s ≠ sessionId → executions (executor w) !! s = Some p →
    heap w' !! p = heap w !! p.

(** The effects of [ExecuteDashboard] from the registration of the tree at
    [t] to the start of its goroutine. *)
Definition start_trace (ctx : Context) (sessionId : string) (inputs : Inputs)
    (t : ptr) : list Action :=
  [Lock; MapWrite sessionId; Unlock] ++
  (if 0 <? size inputs then [TreeSetInputValues t inputs] else []) ++
  [GoExecute t ctx].

(** ** Snapshots *)

(** [workspace.PowerpipeWorkspace], as [LoadSnapshot] reads it: the snapshot
    files of the mod resources by snapshot name, the name of the mod and the
    path of the workspace. *)
Record PowerpipeWorkspace := {
  Snapshots : gmap string string;
  ModName : string;
  Path : string
}.

(** What [LoadSnapshot] asks of the file system and of the JSON decoder:
    [filehelpers.FileExists], [os.ReadFile] and [json.Unmarshal] into a
    value of type [Snapshot]. *)
Class SnapshotIO (Snapshot : Type) := {
  FileExists : string → bool;
  ReadFile : string → string + error;
  Unmarshal : string → Snapshot + error
}.

Definition LoadSnapshot {Snapshot : Type} {io : SnapshotIO Snapshot}
    (ctx : Context) (sessionId snapshotName : string) (w : PowerpipeWorkspace)
    : Snapshot + error :=
  match Snapshots w !! snapshotName with
  | None =>
      inr ("snapshot " +:+ snapshotName +:+ " not found in " +:+ ModName w
           +:+ " (" +:+ Path w +:+ ")")
  | Some snapshotPath =>
      if negb (FileExists snapshotPath) then
        inr ("snapshot " +:+ snapshotPath +:+ " not does not exist")
      else
        match ReadFile snapshotPath with
        | inr err => inr err
        | inl snapshotContent =>
            match Unmarshal snapshotContent with
            | inr err => inr err
            | inl snap => inl snap
            end
        end
  end.

(** ** The API service *)

(** [APIService]: the fields that [NewAPIService] and its options set. *)
Record APIService := {
  api_ctx : Context;
  HTTPPort : string;
  HTTPSHost : string;
  HTTPSPort : string;
  Status : string;
  webSocket : option string;
  api_workspace : option string
}.

(** [APIServiceOption]: a function that changes the service in place and
    returns an error or nil. *)
Definition APIServiceOption : Type := APIService → APIService * option error.

Definition WithWebSocket (webSocket : string) : APIServiceOption :=
  λ api,
    ({| api_ctx := api_ctx api; HTTPPort := HTTPPort api;
        HTTPSHost := HTTPSHost api; HTTPSPort := HTTPSPort api;
        Status := Status api; webSocket := Some webSocket;
        api_workspace := api_workspace api |}, None).

Definition WithWorkspace (workspace : string) : APIServiceOption :=
  λ api,
    ({| api_ctx := api_ctx api; HTTPPort := HTTPPort api;
        HTTPSHost := HTTPSHost api; HTTPSPort := HTTPSPort api;
        Status := Status api; webSocket := webSocket api;
        api_workspace := Some workspace |}, None).

(** The loop [for _, opt := range opts] of [NewAPIService]. *)
Fixpoint applyOptions (opts : list APIServiceOption) (api : APIService)
    : APIService * option error :=
  match opts with
  | [] => (api, None)
  | opt :: rest =>
      let '(api, err) := opt api in
      match err with
      | Some err => (api, Some err)
      | None => applyOptions rest api
      end
  end.

Definition NewAPIService (ctx : Context) (opts : list APIServiceOption)
    : APIService * option error :=
  applyOptions opts
    {| api_ctx := ctx; HTTPPort := "9194"; HTTPSHost := ""; HTTPSPort := "";
       Status := "initialized"; webSocket := None; api_workspace := None |}.

(** [strings.SplitN(s, ",", 2)[0]]: the part of [s] before its first comma,
    all of [s] when it has none. *)
Fixpoint beforeComma (s : string) : string :=
  match s with
  | EmptyString => EmptyString
  | String c rest =>
      if Ascii.eqb c ","%char then EmptyString else String c (beforeComma rest)
  end.

(** The function [Start] registers with the validator to name a field in
    errors, applied to the json tag of the field. *)
Definition jsonTagName (tag : string) : string :=
  let name := beforeComma tag in
  if String.eqb name "-" then "" else name.

(** [s] has no comma. *)
Definition commaFree (s : string) : Prop :=
  ¬ In ","%char (list_ascii_of_string s).

(** * Properties *)

(** ** Input maps *)

Lemma non_nil_live (m : Inputs) k :
  non_nil m k = true ↔ is_Some (omap id m !! k).
Proof.
  unfold non_nil, not_nil, index. rewrite lookup_omap.
  destruct (m !! k) as [[v|]|]; cbn; split; intros H;
    first [done | by eexists | by apply is_Some_None in H].
Qed.

Lemma non_nil_insert_nil (m : Inputs) d k :
  non_nil (<[d := None]> m) k = if decide (d = k) then false else non_nil m k.
Proof.
  unfold non_nil, not_nil, index. rewrite lookup_insert. by case_decide.
Qed.

Lemma live_insert_nil (m : Inputs) d :
  non_nil m d = true → S (live (<[d := None]> m)) = live m.
Proof.
  intros Hd. apply non_nil_live in Hd. unfold live.
  rewrite omap_insert_None by done.
  rewrite map_size_delete_Some by done.
  destruct Hd as [v Hv].
  assert (size (omap id m) ≠ 0); [|lia].
  intros Hz. apply map_size_empty_iff in Hz. rewrite Hz in Hv. done.
Qed.

Lemma nulled_refl m : nulled m m.
Proof. intros k. by left. Qed.

Lemma nulled_non_nil m m' k :
  nulled m m' → non_nil m' k = true → non_nil m k = true.
Proof.
  intros H Hk. destruct (H k) as [He|[Hm He]]; [|done].
  unfold non_nil, not_nil, index in *. by rewrite <- He.
Qed.

Lemma nulled_nil m m' k :
  nulled m m' → non_nil m k = false → non_nil m' k = false.
Proof.
  intros H Hk. destruct (non_nil m' k) eqn:E; [|done].
  apply (nulled_non_nil _ _ _ H) in E. congruence.
Qed.

Lemma nulled_trans m1 m2 m3 : nulled m1 m2 → nulled m2 m3 → nulled m1 m3.
Proof.
  intros H12 H23 k. destruct (H23 k) as [He|[Hm He]].
  - rewrite He. apply H12.
  - right. split; [|done]. by apply (nulled_non_nil _ _ _ H12).
Qed.

Lemma nulled_insert_nil (m : Inputs) d :
  non_nil m d = true → nulled m (<[d := None]> m).
Proof.
  intros Hd k. rewrite lookup_insert. case_decide; subst; auto.
Qed.

Lemma nulled_live m m' : nulled m m' → live m' ≤ live m.
Proof.
  intros H. apply map_subseteq_size, map_subseteq_spec. intros k v.
  rewrite !lookup_omap. destruct (H k) as [->|[_ ->]]; done.
Qed.

Lemma reach_nulled root m m' x y :
  nulled m m' → reach root m' x y → reach root m x y.
Proof.
  intros H. induction 1 as [x y Hd|x z y Hd Hz _ IH].
  - by apply reach_one.
  - eapply reach_step; eauto using nulled_non_nil.
Qed.

Lemma reach_closure root m x y : reach root m x y → closure root x y.
Proof.
  induction 1; [by apply closure_one|by eapply closure_step].
Qed.

(** ** What one call of [clearDependentInputs] does *)

(** The test [len(dependentInputs) > 0] around the loop changes nothing. *)
Lemma clearLoop_guard rec l acc m :
  (if 0 <? length l then clearLoop rec l acc m else Some (acc, m))
  = clearLoop rec l acc m.
Proof. by destruct l. Qed.

Section Clearing.
Variable root : DashboardTreeRun.

Lemma clearLoop_spec rec :
  (∀ x m C m', rec x m = Some (C, m') → clears root x m C m') →
  ∀ l acc m C m', clearLoop rec l acc m = Some (C, m') →
    ∃ E, C = acc ++ E ∧ loop_spec root l m E m'.
Proof.
  intros Hrec. induction l as [|d rest IH]; intros acc m C m' Hrun; simpl in Hrun.
  - injection Hrun as <- <-. exists []. split; [by rewrite app_nil_r|].
    split; try (intros; congruence).
    + intros y [Hy|Hy]; by apply elem_of_nil in Hy.
    + apply nulled_refl.
    + intros y Hy. by apply elem_of_nil in Hy.
  - destruct (non_nil m d) eqn:Hd.
    + destruct (rec d (<[d:=None]> m)) as [[Cd m1]|] eqn:Hcall; [|done].
      apply Hrec in Hcall as [H1 H2 H3 H4 H5 H6].
      apply IH in Hrun as (E & -> & [L2 L3 L4 L5 L6]).
      pose proof (nulled_insert_nil m d Hd) as Hn0.
      pose proof (nulled_trans _ _ _ Hn0 H4) as Hn1.
      exists (Cd ++ E). split; [by rewrite app_assoc|]. split.
      * intros y [Hy|Hy].
        -- apply elem_of_cons in Hy as [->|Hy]; [|by auto].
           apply (nulled_nil _ _ _ (nulled_trans _ _ _ H4 L4)).
           rewrite non_nil_insert_nil. by case_decide.
        -- apply elem_of_app in Hy as [Hy|Hy]; [|by auto].
           apply (nulled_nil _ _ _ L4). by auto.
      * intros n y Hn Hn' Hdep. apply elem_of_app.
        destruct (decide (d = n)) as [->|Hne]; [by auto|].
        destruct (non_nil m1 n) eqn:Hm1; [by eauto|].
        left. apply (H3 n); [|done..].
        rewrite non_nil_insert_nil. by case_decide.
      * by apply (nulled_trans _ _ _ Hn1).
      * intros y Hy. apply elem_of_app in Hy as [Hy|Hy].
        -- exists d. split; [by left|]. split; [done|].
           by apply (reach_nulled _ _ _ _ _ Hn0), H5.
        -- destruct (L5 y Hy) as (d' & Hin & Hnn & Hr).
           exists d'. split; [by right|].
           split; [by apply (nulled_non_nil _ _ _ Hn1)|].
           by apply (reach_nulled _ _ _ _ _ Hn1).
      * intros n Hn Hn'. destruct (decide (d = n)) as [->|Hne].
        { left. by left. }
        destruct (non_nil m1 n) eqn:Hm1.
        -- destruct (L6 n Hm1 Hn') as [?|?].
           ++ left. by right.
           ++ right. apply elem_of_app. by right.
        -- right. apply elem_of_app. left. apply H6; [|done].
           rewrite non_nil_insert_nil. by case_decide.
    + apply IH in Hrun as (E & -> & [L2 L3 L4 L5 L6]).
      exists E. split; [done|]. split; try done.
      * intros y [Hy|Hy]; [|by auto].
        apply elem_of_cons in Hy as [->|Hy]; [|by auto].
        by apply (nulled_nil _ _ _ L4).
      * intros y Hy. destruct (L5 y Hy) as (d' & Hin & Hnn & Hr).
        exists d'. split; [by right|done].
      * intros n Hn Hn'. destruct (L6 n Hn Hn') as [?|?]; [|by right].
        left. by right.
Qed.

Lemma clearDependentInputs_fuel_clears fuel :
  ∀ x m C m', clearDependentInputs_fuel fuel root x m = Some (C, m') →
    clears root x m C m'.
Proof.
  induction fuel as [|fuel IH]; intros x m C m' Hrun; [done|].
  simpl in Hrun. rewrite clearLoop_guard in Hrun.
  apply (clearLoop_spec _ IH) in Hrun as (E & -> & [L2 L3 L4 L5 L6]).
  split.
  - intros y Hy. apply elem_of_app. by left.
  - intros y Hy. apply L2. apply elem_of_app in Hy as [?|?]; auto.
  - intros n y Hn Hn' Hdep. apply elem_of_app. right. eauto.
  - done.
  - intros y Hy. apply elem_of_app in Hy as [Hy|Hy].
    + by apply reach_one.
    + destruct (L5 y Hy) as (d & Hin & Hnn & Hr).
      by apply (reach_step _ _ x d y).
  - intros n Hn Hn'. apply elem_of_app. destruct (L6 n Hn Hn'); auto.
Qed.

(** Every input reached from a cleared input is listed. *)
Lemma clears_reach_from_cleared x m C m' :
  clears root x m C m' →
  ∀ n y, reach root m n y →
    non_nil m n = true → non_nil m' n = false → y ∈ C.
Proof.
  intros [H1 H2 H3 H4 H5 H6]. induction 1 as [n y Hd|n z y Hd Hz _ IH];
    intros Hn Hn'.
  - by apply (H3 n).
  - apply IH; [done|]. apply H2. by apply (H3 n).
Qed.

Lemma clears_complete x m C m' :
  clears root x m C m' → ∀ y, reach root m x y → y ∈ C.
Proof.
  intros Hc y Hr. pose proof Hc as [H1 H2 H3 H4 H5 H6].
  destruct Hr as [x y Hd|x z y Hd Hz Hr]; [by auto|].
  apply (clears_reach_from_cleared _ _ _ _ Hc z y Hr Hz). auto.
Qed.

(** The map after a call, entry by entry. *)
Lemma clears_final_map x m C m' :
  clears root x m C m' →
  ∀ k, m' !! k =
    if non_nil m k && bool_decide (k ∈ C) then Some None else m !! k.
Proof.
  intros [H1 H2 H3 H4 H5 H6] k.
  destruct (non_nil m k) eqn:Hk; simpl.
  - case_bool_decide as Hin.
    + destruct (H4 k) as [He|[_ He]]; [|done].
      apply H2 in Hin. unfold non_nil, not_nil, index in *. rewrite He in Hin.
      congruence.
    + destruct (H4 k) as [He|[_ He]]; [done|].
      destruct Hin. apply H6; [done|].
      unfold non_nil, not_nil, index. by rewrite He.
  - destruct (H4 k) as [He|[? He]]; [done|congruence].
Qed.

(** *** Termination *)

Lemma clearLoop_total rec bound :
  (∀ x m, live m < bound → ∃ C m', rec x m = Some (C, m') ∧ clears root x m C m') →
  ∀ l acc m, live m < S bound → ∃ C m', clearLoop rec l acc m = Some (C, m').
Proof.
  intros Hrec. induction l as [|d rest IH]; intros acc m Hm; simpl.
  - eauto.
  - destruct (non_nil m d) eqn:Hd; [|by apply IH].
    pose proof (live_insert_nil m d Hd) as Hlive.
    destruct (Hrec d (<[d:=None]> m)) as (Cd & m1 & -> & Hc); [lia|].
    apply IH. pose proof (nulled_live _ _ (clears_nulled _ _ _ _ _ Hc)). lia.
Qed.

Lemma clearDependentInputs_fuel_total fuel :
  ∀ x m, live m < fuel →
    ∃ C m', clearDependentInputs_fuel fuel root x m = Some (C, m').
Proof.
  induction fuel as [|fuel IH]; intros x m Hm; [lia|]. simpl.
  rewrite clearLoop_guard.
  apply (clearLoop_total _ fuel); [|done].
  intros x' m0 Hm0. destruct (IH x' m0 Hm0) as (C & m' & Hrun).
  exists C, m'. split; [done|]. by apply (clearDependentInputs_fuel_clears fuel).
Qed.

(** More fuel does not change a result. *)
Lemma clearLoop_mono rec1 rec2 :
  (∀ x m r, rec1 x m = Some r → rec2 x m = Some r) →
  ∀ l acc m r, clearLoop rec1 l acc m = Some r → clearLoop rec2 l acc m = Some r.
Proof.
  intros Hrec. induction l as [|d rest IH]; intros acc m r; simpl; [done|].
  destruct (non_nil m d); [|by apply IH].
  destruct (rec1 d (<[d:=None]> m)) as [[Cd m1]|] eqn:Hcall; [|done].
  rewrite (Hrec _ _ _ Hcall). apply IH.
Qed.

Lemma clearDependentInputs_fuel_mono fuel :
  ∀ fuel' x m r, fuel ≤ fuel' →
    clearDependentInputs_fuel fuel root x m = Some r →
    clearDependentInputs_fuel fuel' root x m = Some r.
Proof.
  induction fuel as [|fuel IH]; intros fuel' x m r Hle; [done|].
  destruct fuel' as [|fuel']; [lia|]. simpl. rewrite !clearLoop_guard.
  apply clearLoop_mono. intros x' m0 r0. apply IH. lia.
Qed.

Lemma clearDependentInputs_enough_fuel fuel x m :
  live m < fuel →
  clearDependentInputs_fuel fuel root x m = Some (clearDependentInputs root x m).
Proof.
  intros Hm. unfold clearDependentInputs.
  destruct (clearDependentInputs_fuel_total (S (live m)) x m) as (C & m' & Hrun);
    [lia|].
  rewrite Hrun. simpl. apply (clearDependentInputs_fuel_mono (S (live m))); [lia|done].
Qed.

Lemma clearDependentInputs_clears x m :
  clears root x m (clearDependentInputs root x m).1 (clearDependentInputs root x m).2.
Proof.
  apply (clearDependentInputs_fuel_clears (S (live m))).
  rewrite <- surjective_pairing. apply clearDependentInputs_enough_fuel. lia.
Qed.
End Clearing.

(** ** Claims on [clearDependentInputs] *)

(** C1, as the spec words it, fails: with B a declared dependent of A and no
    input set, [clearDependentInputs] returns B although B holds no value. *)
Lemma clearDependentInputs_lists_nil_dependent :
  ¬ returns_live_closure (graph_root [("A", ["B"])]) "A" ∅.
Proof.
  intros [Hiff _]. destruct (Hiff "B") as [Hin _].
  assert (non_nil (∅ : Inputs) "B" = true) as Hlive; [|by vm_compute in Hlive].
  apply Hin. vm_compute. by left.
Qed.

(** C1, amended: [clearDependentInputs] returns (with any fuel above the
    number of non-nil inputs) a list whose elements are exactly the inputs
    reached from the changed input along declared dependencies with every
    input strictly in between non-nil in the initial map; the last input of
    such a path may be nil or absent. Every returned input reads as nil in
    the final map, which is the initial map with the returned non-nil inputs
    set to nil: a nil input is left as it was and is not traversed through. *)
Theorem clearDependentInputs_reach root changedInput inputs :
  let r := clearDependentInputs root changedInput inputs in
  (∀ fuel, live inputs < fuel →
     clearDependentInputs_fuel fuel root changedInput inputs = Some r) ∧
  (∀ y, y ∈ r.1 ↔ reach root inputs changedInput y) ∧
  (∀ y, y ∈ r.1 → index r.2 y = None) ∧
  (∀ k, r.2 !! k =
     if non_nil inputs k && bool_decide (k ∈ r.1) then Some None
     else inputs !! k).
Proof.
  intros r. pose proof (clearDependentInputs_clears root changedInput inputs) as Hc.
  fold r in Hc. repeat split.
  - intros fuel Hfuel. by apply clearDependentInputs_enough_fuel.
  - apply (clears_sound _ _ _ _ _ Hc).
  - apply (clears_complete _ _ _ _ _ Hc).
  - intros y Hy. apply (clears_nil _ _ _ _ _ Hc) in Hy.
    unfold non_nil, not_nil in Hy. by destruct (index r.2 y).
  - apply (clears_final_map _ _ _ _ _ Hc).
Qed.

Lemma clearDependentInputs_reach_witness :
  let r := clearDependentInputs cyclic_root "A" abc_inputs in
  clearDependentInputs_fuel 4 cyclic_root "A" abc_inputs = Some r ∧
  reach cyclic_root abc_inputs "A" "A" ∧
  index r.2 "A" = None.
Proof.
  intros r.
  destruct (clearDependentInputs_reach cyclic_root "A" abc_inputs)
    as (Hfuel & Hiff & Hnil & _).
  fold r in Hfuel, Hiff, Hnil.
  assert ("A" ∈ r.1) as Hin.
  { vm_compute. do 3 right. by left. }
  split; [|split].
  - apply Hfuel. vm_compute. lia.
  - by apply Hiff.
  - by apply Hnil.
Defined.

(** C5: [clearDependentInputs] terminates on every map and every declared
    graph, cyclic or not: a recursive call is only made on a map with one
    non-nil input fewer, so a recursion depth above the number of non-nil
    inputs is never exhausted, and the result does not depend on it; the map
    that results has no more non-nil inputs than the initial one. *)
Theorem clearDependentInputs_terminates root changedInput inputs fuel :
  live inputs < fuel →
  clearDependentInputs_fuel fuel root changedInput inputs
  = Some (clearDependentInputs root changedInput inputs) ∧
  live (clearDependentInputs root changedInput inputs).2 ≤ live inputs.
Proof.
  intros Hfuel. split.
  - by apply clearDependentInputs_enough_fuel.
  - apply nulled_live.
    apply (clears_nulled _ _ _ _ _ (clearDependentInputs_clears root changedInput inputs)).
Qed.

Lemma clearDependentInputs_terminates_witness :
  live abc_inputs < 4 ∧
  clearDependentInputs_fuel 4 cyclic_root "A" abc_inputs
  = Some (clearDependentInputs cyclic_root "A" abc_inputs).
Proof.
  assert (live abc_inputs < 4) as H by (vm_compute; lia).
  split; [exact H|].
  exact (proj1 (clearDependentInputs_terminates cyclic_root "A" abc_inputs 4 H)).
Defined.

(** ** Running the registry operations *)

Ltac run :=
  unfold emit, modify, gets, mbind, M_bind, mret, M_ret,
    with_trace, with_heap, with_executions; simpl;
  rewrite <- ?app_assoc; simpl.

Lemma getExecution_run sessionId w :
  getExecution sessionId w =
  (executions (executor w) !! sessionId,
   with_trace (λ t, t ++ [Lock; MapRead sessionId; Unlock]) w).
Proof. unfold getExecution. by run. Qed.

Section ExecutorFacts.
Context {trees : TreeMethods}.

Lemma CancelExecutionForSession_run ctx sessionId w :
  CancelExecutionForSession ctx sessionId w = (tt, cancelled sessionId w).
Proof.
  unfold CancelExecutionForSession, cancelled.
  unfold mbind at 1, M_bind at 1. rewrite getExecution_run.
  destruct (executions (executor w) !! sessionId) as [t|] eqn:Hfound.
  - unfold callCancel, removeExecution, cancel_trace. by run.
  - unfold cancel_trace. run. rewrite delete_id by done.
    by destruct w as [[] ? ? ?].
Qed.

Lemma cancelled_executor sessionId w :
  interactive (executor (cancelled sessionId w)) = interactive (executor w) ∧
  defaultClient (executor (cancelled sessionId w)) = defaultClient (executor w) ∧
  executions (executor (cancelled sessionId w))
  = delete sessionId (executions (executor w)).
Proof. done. Qed.

Lemma validateInputs_cancelled sessionId w tree inputs :
  validateInputs (executor (cancelled sessionId w)) tree inputs
  = validateInputs (executor w) tree inputs.
Proof. done. Qed.

(** [ExecuteDashboard] is its body followed by the deferred function. *)
Lemma ExecuteDashboard_unfold ctx sessionId rootResource inputs workspace opts w :
  ExecuteDashboard ctx sessionId rootResource inputs workspace opts w =
  ExecuteDashboard_deferred ctx sessionId workspace
    (ExecuteDashboard_body ctx sessionId rootResource inputs workspace opts w).1
    (ExecuteDashboard_body ctx sessionId rootResource inputs workspace opts w).2.
Proof.
  unfold ExecuteDashboard, mbind, M_bind.
  by destruct (ExecuteDashboard_body _ _ _ _ _ _ w).
Qed.

Lemma ExecuteDashboard_body_construction_fails
    ctx sessionId rootResource inputs workspace opts w err :
  newDashboardExecutionTree rootResource sessionId workspace
    (defaultClient (executor w)) opts = inr err →
  ExecuteDashboard_body ctx sessionId rootResource inputs workspace opts w
  = (Some err, cancelled sessionId w).
Proof.
  intros Hnew. unfold ExecuteDashboard_body.
  unfold mbind at 1, M_bind at 1. rewrite CancelExecutionForSession_run.
  run. by rewrite Hnew.
Qed.

Lemma ExecuteDashboard_body_validation_fails
    ctx sessionId rootResource inputs workspace opts w tree err :
  newDashboardExecutionTree rootResource sessionId workspace
    (defaultClient (executor w)) opts = inl tree →
  validateInputs (executor w) tree inputs = Some err →
  ExecuteDashboard_body ctx sessionId rootResource inputs workspace opts w
  = (Some err,
     with_heap (insert (fresh (dom (heap (cancelled sessionId w)))) tree)
       (cancelled sessionId w)).
Proof.
  intros Hnew Hval. unfold ExecuteDashboard_body.
  unfold mbind at 1, M_bind at 1. rewrite CancelExecutionForSession_run.
  unfold alloc. run. rewrite Hnew. simpl.
  change (validateInputs _ tree inputs)
    with (validateInputs (executor w) tree inputs).
  by rewrite Hval.
Qed.

Lemma ExecuteDashboard_body_starts
    ctx sessionId rootResource inputs workspace opts w tree :
  newDashboardExecutionTree rootResource sessionId workspace
    (defaultClient (executor w)) opts = inl tree →
  validateInputs (executor w) tree inputs = None →
  ExecuteDashboard_body ctx sessionId rootResource inputs workspace opts w
  = (None, started ctx sessionId inputs tree w).
Proof.
  intros Hnew Hval. unfold ExecuteDashboard_body.
  unfold mbind at 1, M_bind at 1. rewrite CancelExecutionForSession_run.
  unfold alloc. run. rewrite Hnew. simpl.
  change (validateInputs _ tree inputs)
    with (validateInputs (executor w) tree inputs).
  rewrite Hval. unfold setExecution, callSetInputValues, started. run.
  destruct (executions (executor w) !! sessionId), (0 <? size inputs); by run.
Qed.

(** The body fails in two ways only. *)
Lemma ExecuteDashboard_body_cases
    ctx sessionId rootResource inputs workspace opts w :
  let new := newDashboardExecutionTree rootResource sessionId workspace
               (defaultClient (executor w)) opts in
  let body := ExecuteDashboard_body ctx sessionId rootResource inputs workspace opts w in
  (∃ err, new = inr err ∧ body = (Some err, cancelled sessionId w)) ∨
  (∃ tree err, new = inl tree ∧
     validateInputs (executor w) tree inputs = Some err ∧ body.1 = Some err ∧
     executor body.2 = executor (cancelled sessionId w) ∧
     trace body.2 = trace (cancelled sessionId w) ∧ clock body.2 = clock w) ∨
  (∃ tree, new = inl tree ∧ validateInputs (executor w) tree inputs = None ∧
     body = (None, started ctx sessionId inputs tree w)).
Proof.
  intros new body. subst new body.
  destruct (newDashboardExecutionTree rootResource sessionId workspace
              (defaultClient (executor w)) opts) as [tree|err] eqn:Hnew.
  - destruct (validateInputs (executor w) tree inputs) as [err|] eqn:Hval.
    + right. left. exists tree, err.
      by rewrite (ExecuteDashboard_body_validation_fails _ _ _ _ _ _ _ _ _ Hnew Hval).
    + right. right. exists tree.
      by rewrite (ExecuteDashboard_body_starts _ _ _ _ _ _ _ _ Hnew Hval).
  - left. exists err.
    by rewrite (ExecuteDashboard_body_construction_fails _ _ _ _ _ _ _ _ Hnew).
Qed.

Lemma ExecuteDashboard_deferred_error ctx sessionId workspace err w :
  ExecuteDashboard_deferred ctx sessionId workspace (Some err) w
  = (Some err,
     with_trace (λ t, t ++ [Publish workspace (ExecutionError err sessionId (clock w))]) w).
Proof. unfold ExecuteDashboard_deferred. by run. Qed.

Lemma ExecuteDashboard_deferred_context ctx sessionId workspace ctxErr w :
  Err ctx = Some ctxErr →
  ExecuteDashboard_deferred ctx sessionId workspace None w
  = ExecuteDashboard_deferred ctx sessionId workspace
      (Some (if String.eqb ctxErr DeadlineExceeded
             then "execution timed out" else ctxErr)) w.
Proof.
  intros Hctx. unfold ExecuteDashboard_deferred. rewrite Hctx.
  by destruct (String.eqb ctxErr DeadlineExceeded).
Qed.

Lemma ExecuteDashboard_deferred_nil ctx sessionId workspace w :
  Err ctx = None →
  ExecuteDashboard_deferred ctx sessionId workspace None w = (None, w).
Proof. intros Hctx. unfold ExecuteDashboard_deferred. by rewrite Hctx. Qed.
End ExecutorFacts.

Lemma published_with_trace l w :
  published (with_trace (λ t, t ++ l) w) =
  published w ++
  omap (λ a, match a with Publish ws ev => Some (ws, ev) | _ => None end) l.
Proof. unfold published. simpl. apply omap_app. Qed.

(** ** Claims on the lifecycle operations *)

Section Lifecycle.
Context {trees : TreeMethods}.

(** C3: in batch mode, when the tree built for the request depends on input
    names that have no key in the supplied inputs, [ExecuteDashboard] returns
    the error that lists them, comma-separated, after the word input (for one
    name) or inputs (for any other count); the tree is not registered: the
    registry is the previous one without the session, and the only effects
    are those of the cancellation and the [ExecutionError] event. *)
Theorem ExecuteDashboard_batch_missing_inputs
    ctx sessionId rootResource inputs workspace opts w tree :
  interactive (executor w) = false →
  newDashboardExecutionTree rootResource sessionId workspace
    (defaultClient (executor w)) opts = inl tree →
  missing inputs (InputRuntimeDependencies tree) ≠ [] →
  let names := missing inputs (InputRuntimeDependencies tree) in
  let msg := (if length names =? 1 then "input" else "inputs") +:+ " '" +:+
             Join names "," +:+ "' must be provided using '--arg name=value'" in
  let r := ExecuteDashboard ctx sessionId rootResource inputs workspace opts w in
  r.1 = Some msg ∧
  executions (executor r.2) = delete sessionId (executions (executor w)) ∧
  executions (executor r.2) !! sessionId = None ∧
  trace r.2 = trace w ++ cancel_trace sessionId (executions (executor w) !! sessionId)
              ++ [Publish workspace (ExecutionError msg sessionId (clock w))].
Proof.
  intros Hbatch Hnew Hmiss names msg r.
  assert (validateInputs (executor w) tree inputs = Some msg) as Hval.
  { unfold validateInputs. rewrite Hbatch. fold names.
    destruct names as [|n names'] eqn:Hn; [done|]. simpl length.
    unfold msg, Pluralize. simpl length. by destruct (S (length names') =? 1). }
  subst r. rewrite ExecuteDashboard_unfold.
  rewrite (ExecuteDashboard_body_validation_fails _ _ _ _ _ _ _ _ _ Hnew Hval).
  cbn [fst snd]. rewrite ExecuteDashboard_deferred_error. simpl.
  split; [done|]. split; [done|]. split; [apply lookup_delete_eq|].
  by rewrite <- app_assoc.
Qed.

(** C4: when the body of [ExecuteDashboard] returns no error and the
    deadline of the context has elapsed, the call returns the error
    execution timed out; and whenever the call returns an error, the last
    thing it does is publish, on the workspace it was given, an
    [ExecutionError] event with that error and the session id. *)
Theorem ExecuteDashboard_error_event
    ctx sessionId rootResource inputs workspace opts w :
  let body := ExecuteDashboard_body ctx sessionId rootResource inputs workspace opts w in
  let r := ExecuteDashboard ctx sessionId rootResource inputs workspace opts w in
  (body.1 = None → Err ctx = Some DeadlineExceeded →
     r.1 = Some "execution timed out") ∧
  (∀ err, r.1 = Some err →
     trace r.2 = trace body.2 ++
       [Publish workspace (ExecutionError err sessionId (clock body.2))] ∧
     published r.2 = published body.2 ++
       [(workspace, ExecutionError err sessionId (clock body.2))]).
Proof.
  intros body r. subst r. rewrite ExecuteDashboard_unfold. fold body.
  destruct body as [berr w']. cbn [fst snd]. split.
  - intros -> Hctx. unfold ExecuteDashboard_deferred. by rewrite Hctx.
  - intros err. unfold ExecuteDashboard_deferred.
    destruct berr as [e|]; [|destruct (Err ctx) as [ce|]].
    + run. intros [= ->]. split; [done|]. unfold published. simpl.
      by rewrite omap_app.
    + run. destruct (String.eqb ce DeadlineExceeded); intros [= <-];
        (split; [done|]); unfold published; simpl; by rewrite omap_app.
    + by run.
Qed.

Lemma dom_heap_cancelled sessionId w :
  dom (heap (cancelled sessionId w)) = dom (heap w).
Proof.
  unfold cancelled. simpl.
  destruct (executions (executor w) !! sessionId); [apply dom_alter_L|done].
Qed.

(** A tree of [w], after the cancellation of the session: [Cancel] has been
    applied to it if it was the tree of the session, and it is as before
    otherwise. *)
Lemma heap_cancelled sessionId w p :
  heap (cancelled sessionId w) !! p =
  if decide (executions (executor w) !! sessionId = Some p)
  then Cancel <$> heap w !! p else heap w !! p.
Proof.
  unfold cancelled. cbn [heap].
  destruct (executions (executor w) !! sessionId) as [t|]; case_decide as Hp.
  - injection Hp as ->. apply lookup_alter_eq.
  - apply lookup_alter_ne. congruence.
  - done.
  - done.
Qed.

(** The address of a new tree is not the address of a tree of [w]. *)
Lemma allocated_not_fresh sessionId w p :
  is_Some (heap w !! p) → p ≠ fresh (dom (heap (cancelled sessionId w))).
Proof.
  intros Hp ->. rewrite dom_heap_cancelled in Hp.
  apply elem_of_dom in Hp. by apply is_fresh in Hp.
Qed.

(** C9: when the construction of the tree fails, or the batch-mode
    validation of the inputs fails, [ExecuteDashboard] returns that error and
    the registry has no entry for the session: it is the previous registry
    without the session and it is never written. A tree that was registered
    for the session has been cancelled and deleted: [Cancel] has been
    applied to it in the heap, once, and to no other tree of the heap. *)
Theorem ExecuteDashboard_failure_unregistered
    ctx sessionId rootResource inputs workspace opts w err :
  (newDashboardExecutionTree rootResource sessionId workspace
     (defaultClient (executor w)) opts = inr err ∨
   ∃ tree,
     newDashboardExecutionTree rootResource sessionId workspace
       (defaultClient (executor w)) opts = inl tree ∧
     validateInputs (executor w) tree inputs = Some err) →
  let r := ExecuteDashboard ctx sessionId rootResource inputs workspace opts w in
  r.1 = Some err ∧
  executions (executor r.2) = delete sessionId (executions (executor w)) ∧
  executions (executor r.2) !! sessionId = None ∧
  trace r.2 = trace w ++ cancel_trace sessionId (executions (executor w) !! sessionId)
              ++ [Publish workspace (ExecutionError err sessionId (clock w))] ∧
  (∀ old, executions (executor w) !! sessionId = Some old →
     is_Some (heap w !! old) →
     heap r.2 !! old = Cancel <$> heap w !! old) ∧
  (∀ p, executions (executor w) !! sessionId ≠ Some p →
     is_Some (heap w !! p) →
     heap r.2 !! p = heap w !! p).
Proof.
  intros Hfail r. subst r. rewrite ExecuteDashboard_unfold.
  destruct Hfail as [Hnew|(tree & Hnew & Hval)].
  - rewrite (ExecuteDashboard_body_construction_fails _ _ _ _ _ _ _ _ Hnew).
    cbn [fst snd]. rewrite ExecuteDashboard_deferred_error.
    cbn [fst snd with_trace executor heap trace].
    split; [done|]. split; [done|]. split; [apply lookup_delete_eq|].
    split; [cbn [cancelled trace clock]; by rewrite <- app_assoc|]. split.
    + intros old Hold _. rewrite heap_cancelled. by case_decide.
    + intros p Hp _. rewrite heap_cancelled. by case_decide.
  - rewrite (ExecuteDashboard_body_validation_fails _ _ _ _ _ _ _ _ _ Hnew Hval).
    cbn [fst snd]. rewrite ExecuteDashboard_deferred_error.
    cbn [fst snd with_trace with_heap executor heap trace].
    split; [done|]. split; [done|]. split; [apply lookup_delete_eq|].
    split; [cbn [cancelled trace clock]; by rewrite <- app_assoc|]. split.
    + intros old Hold Halloc.
      rewrite lookup_insert_ne by (symmetry; by apply allocated_not_fresh).
      rewrite heap_cancelled. by case_decide.
    + intros p Hp Halloc.
      rewrite lookup_insert_ne by (symmetry; by apply allocated_not_fresh).
      rewrite heap_cancelled. by case_decide.
Qed.

(** An error that comes from the context alone is returned with the new tree
    registered and started. *)
Lemma ExecuteDashboard_context_error_registered
    ctx sessionId rootResource inputs workspace opts w tree ctxErr :
  newDashboardExecutionTree rootResource sessionId workspace
    (defaultClient (executor w)) opts = inl tree →
  validateInputs (executor w) tree inputs = None →
  Err ctx = Some ctxErr →
  let r := ExecuteDashboard ctx sessionId rootResource inputs workspace opts w in
  is_Some r.1 ∧
  executions (executor r.2) !! sessionId
  = Some (fresh (dom (heap (cancelled sessionId w)))).
Proof.
  intros Hnew Hval Hctx r. subst r. rewrite ExecuteDashboard_unfold.
  rewrite (ExecuteDashboard_body_starts _ _ _ _ _ _ _ _ Hnew Hval).
  cbn [fst snd]. unfold ExecuteDashboard_deferred. rewrite Hctx.
  destruct (String.eqb ctxErr DeadlineExceeded); run;
    (split; [by eexists|apply lookup_insert_eq]).
Qed.

(** C6: [CancelExecutionForSession] on a session with no registered tree
    only looks the session up under the mutex: registry, trees and published
    events are as before. On a session whose registered tree is [t] it calls
    [Cancel] on [t] and deletes the entry, so that a [getExecution] that
    follows finds nothing. *)
Theorem CancelExecutionForSession_cases ctx sessionId w :
  let r := CancelExecutionForSession ctx sessionId w in
  (executions (executor w) !! sessionId = None →
     r.2 = with_trace (λ t, t ++ [Lock; MapRead sessionId; Unlock]) w ∧
     published r.2 = published w) ∧
  (∀ t, executions (executor w) !! sessionId = Some t →
     trace r.2 = trace w ++ [Lock; MapRead sessionId; Unlock; TreeCancel t;
                             Lock; MapDelete sessionId; Unlock] ∧
     heap r.2 = alter Cancel t (heap w) ∧
     executions (executor r.2) = delete sessionId (executions (executor w)) ∧
     (getExecution sessionId r.2).1 = None).
Proof.
  intros r. subst r. rewrite CancelExecutionForSession_run. simpl snd. split.
  - intros Hnone.
    assert (cancelled sessionId w
            = with_trace (λ t, t ++ [Lock; MapRead sessionId; Unlock]) w) as ->.
    { unfold cancelled, with_trace. rewrite Hnone. simpl.
      rewrite delete_id by done. by destruct w as [[] ? ? ?]. }
    split; [done|]. rewrite published_with_trace. simpl. apply app_nil_r.
  - intros t Hsome. rewrite getExecution_run. unfold cancelled.
    rewrite Hsome. simpl. repeat split. apply lookup_delete_eq.
Qed.

(** C7: on a session with no entry in the registry, [OnInputChanged] returns
    the error no dashboard running for session followed by the session id;
    its only effect is the lookup, so no event is published. *)
Theorem OnInputChanged_unknown_session ctx sessionId inputs changedInput w :
  executions (executor w) !! sessionId = None →
  let r := OnInputChanged ctx sessionId inputs changedInput w in
  r.1 = Returned (Some ("no dashboard running for session " +:+ sessionId)) ∧
  r.2 = with_trace (λ t, t ++ [MapRead sessionId]) w ∧
  published r.2 = published w.
Proof.
  intros Hnone r. subst r. unfold OnInputChanged. run. rewrite Hnone. simpl.
  split; [done|]. split; [done|].
  unfold published. simpl. rewrite omap_app. simpl. apply app_nil_r.
Qed.

(** C10: [NewDashboardExecutor] returns an executor with an empty registry
    and [interactive] set; [validateInputs] of an interactive executor
    returns nil for every tree and every inputs map, so it does for the
    executor just made. *)
Theorem NewDashboardExecutor_interactive defaultClient :
  executions (NewDashboardExecutor defaultClient) = ∅ ∧
  interactive (NewDashboardExecutor defaultClient) = true ∧
  (∀ e tree inputs, interactive e = true → validateInputs e tree inputs = None) ∧
  (∀ tree inputs,
     validateInputs (NewDashboardExecutor defaultClient) tree inputs = None).
Proof.
  repeat split. intros e tree inputs He. unfold validateInputs. by rewrite He.
Qed.
End Lifecycle.

(** ** Input changes and the mutex *)

Lemma bind_run {A B} (c : M A) (f : A → M B) w :
  (c ≫= f) w = f (c w).1 (c w).2.
Proof. unfold mbind, M_bind. by destruct (c w). Qed.

Lemma emit_run a w : emit a w = (tt, with_trace (λ t, t ++ [a]) w).
Proof. done. Qed.

Lemma gets_run {A} (f : World → A) w : gets f w = (f w, w).
Proof. done. Qed.

Lemma ret_run {A} (a : A) (w : World) : (mret a : M A) w = (a, w).
Proof. done. Qed.

Ltac step :=
  repeat (rewrite ?bind_run, ?emit_run, ?gets_run, ?ret_run;
          cbn [fst snd with_trace executor heap trace clock]).

Lemma effects_app {A} (c : M A) w l :
  trace (c w).2 = trace w ++ l → effects c w = l.
Proof. intros H. unfold effects. rewrite H. apply drop_app_length. Qed.

Section Changes.
Context {trees : TreeMethods}.

(** The effects of [ExecuteDashboard] start with the cancellation of the
    session, and keep the lock discipline. *)
Lemma ExecuteDashboard_effects ctx sessionId rootResource inputs workspace opts w :
  ∃ rest,
    trace (ExecuteDashboard ctx sessionId rootResource inputs workspace opts w).2
    = trace w ++ cancel_trace sessionId (executions (executor w) !! sessionId) ++ rest ∧
    disciplined false
      (cancel_trace sessionId (executions (executor w) !! sessionId) ++ rest) = true.
Proof.
  rewrite ExecuteDashboard_unfold.
  destruct (ExecuteDashboard_body_cases ctx sessionId rootResource inputs workspace opts w)
    as [(err & _ & Hb)|[(tree & err & _ & _ & Hb & _ & Htr & _)|(tree & _ & _ & Hb)]].
  - rewrite Hb. cbn [fst snd]. rewrite ExecuteDashboard_deferred_error.
    eexists. split; [simpl; by rewrite <- app_assoc|].
    by destruct (executions (executor w) !! sessionId).
  - rewrite Hb, ExecuteDashboard_deferred_error. cbn [with_trace trace snd].
    rewrite Htr. eexists. split; [simpl; by rewrite <- app_assoc|].
    by destruct (executions (executor w) !! sessionId).
  - rewrite Hb. cbn [fst snd]. destruct (Err ctx) as [ce|] eqn:Hctx.
    + rewrite (ExecuteDashboard_deferred_context _ _ _ _ _ Hctx).
      rewrite ExecuteDashboard_deferred_error.
      unfold started. cbn [snd with_trace trace cancelled].
      eexists. split; [by rewrite <- !app_assoc|].
      by destruct (executions (executor w) !! sessionId), (0 <? size inputs).
    + rewrite (ExecuteDashboard_deferred_nil _ _ _ _ Hctx).
      unfold started. cbn [snd trace cancelled].
      eexists. split; [by rewrite <- !app_assoc|].
      by destruct (executions (executor w) !! sessionId), (0 <? size inputs).
Qed.

Lemma CancelExecutionForSession_disciplined ctx sessionId w :
  disciplined false (effects (CancelExecutionForSession ctx sessionId) w) = true.
Proof.
  rewrite (effects_app _ _ (cancel_trace sessionId (executions (executor w) !! sessionId))).
  - by destruct (executions (executor w) !! sessionId).
  - by rewrite CancelExecutionForSession_run.
Qed.

Lemma ExecuteDashboard_disciplined ctx sessionId rootResource inputs workspace opts w :
  disciplined false
    (effects (ExecuteDashboard ctx sessionId rootResource inputs workspace opts) w) = true.
Proof.
  destruct (ExecuteDashboard_effects ctx sessionId rootResource inputs workspace opts w)
    as (rest & Htr & Hd).
  by rewrite (effects_app _ _ _ Htr).
Qed.

(** [OnInputChanged] on a session whose registered tree is [tree], up to the
    choice between restart and update. *)
Lemma OnInputChanged_registered ctx sessionId inputs changedInput w t tree :
  executions (executor w) !! sessionId = Some t →
  heap w !! t = Some tree →
  let c := clearDependentInputs (Root tree) changedInput inputs in
  let notice :=
    if 0 <? length c.1
    then [Publish (tree_workspace tree)
            (InputValuesCleared c.1 (tree_sessionId tree) (tree_id tree))]
    else [] in
  let w1 := with_trace (λ tr, tr ++ MapRead sessionId :: notice) w in
  OnInputChanged ctx sessionId inputs changedInput w =
  if IsFinished (GetRunStatus tree) || not_nil (index (inputValues tree) changedInput)
  then
    let e := ExecuteDashboard ctx sessionId (GetResource (Root tree)) c.2
               (tree_workspace tree) [] w1 in
    (Returned e.1, e.2)
  else
    (Returned None,
     with_heap (alter (SetInputValues c.2) t)
       (with_trace (λ tr, tr ++ [TreeSetInputValues t c.2]) w1)).
Proof.
  intros Hfound Hheap c notice w1. unfold OnInputChanged.
  step. rewrite Hfound. step. rewrite Hheap.
  subst w1 notice c.
  destruct (clearDependentInputs (Root tree) changedInput inputs) as [cleared inputs'].
  cbn [fst snd]. step.
  assert (((if 0 <? length cleared
            then emit (Publish (tree_workspace tree)
                         (InputValuesCleared cleared (tree_sessionId tree) (tree_id tree)))
            else mret ())
             (with_trace (λ t0, t0 ++ [MapRead sessionId]) w)).2
          = with_trace (λ tr, tr ++ MapRead sessionId ::
               (if 0 <? length cleared
                then [Publish (tree_workspace tree)
                        (InputValuesCleared cleared (tree_sessionId tree) (tree_id tree))]
                else [])) w) as ->.
  { destruct (0 <? length cleared); step; unfold with_trace; simpl;
      by rewrite <- ?app_assoc. }
  destruct (IsFinished (GetRunStatus tree) || not_nil (index (inputValues tree) changedInput)).
  - by step.
  - unfold callSetInputValues. step. done.
Qed.

(** C2: on a session whose registered tree is [tree], [OnInputChanged] first
    reads the registry, clears the dependent inputs and publishes the notice
    of the cleared ones, if any. Then, if the run status of the tree is
    terminal or the tree held a non-nil value for the changed input, it is
    [ExecuteDashboard] on the cleared inputs, whose result it returns;
    otherwise it calls [SetInputValues] with the cleared inputs on the
    registered tree, leaves the registry alone and returns nil. The
    registered tree is cancelled exactly in the first case. *)
Theorem OnInputChanged_restart_iff ctx sessionId inputs changedInput w t tree :
  executions (executor w) !! sessionId = Some t →
  heap w !! t = Some tree →
  let restart :=
    IsFinished (GetRunStatus tree) || not_nil (index (inputValues tree) changedInput) in
  let c := clearDependentInputs (Root tree) changedInput inputs in
  let notice :=
    if 0 <? length c.1
    then [Publish (tree_workspace tree)
            (InputValuesCleared c.1 (tree_sessionId tree) (tree_id tree))]
    else [] in
  let w1 := with_trace (λ tr, tr ++ MapRead sessionId :: notice) w in
  let r := OnInputChanged ctx sessionId inputs changedInput w in
  (restart = true →
     let e := ExecuteDashboard ctx sessionId (GetResource (Root tree)) c.2
                (tree_workspace tree) [] w1 in
     r = (Returned e.1, e.2)) ∧
  (restart = false →
     r.1 = Returned None ∧
     executor r.2 = executor w ∧
     heap r.2 = alter (SetInputValues c.2) t (heap w) ∧
     trace r.2 = trace w ++ MapRead sessionId :: notice ++ [TreeSetInputValues t c.2]) ∧
  (TreeCancel t ∈ effects (OnInputChanged ctx sessionId inputs changedInput) w
   ↔ restart = true).
Proof.
  intros Hfound Hheap restart c notice w1 r.
  pose proof (OnInputChanged_registered ctx sessionId inputs changedInput w t tree
                Hfound Hheap) as Hrun.
  cbv zeta in Hrun. fold c notice w1 restart r in Hrun.
  assert (restart = false →
          trace r.2 = trace w ++ MapRead sessionId :: notice ++ [TreeSetInputValues t c.2])
    as Hupdate.
  { intros Hr. rewrite Hrun, Hr. simpl. by rewrite <- app_assoc. }
  split; [|split].
  - intros Hr. by rewrite Hrun, Hr.
  - intros Hr. split; [by rewrite Hrun, Hr|]. split; [by rewrite Hrun, Hr|].
    split; [by rewrite Hrun, Hr|by apply Hupdate].
  - destruct restart eqn:Hr.
    + split; [done|]. intros _.
      destruct (ExecuteDashboard_effects ctx sessionId (GetResource (Root tree)) c.2
                  (tree_workspace tree) [] w1) as (rest & Htr & _).
      change (executions (executor w1)) with (executions (executor w)) in Htr.
      rewrite Hfound in Htr.
      rewrite (effects_app _ _
                 ((MapRead sessionId :: notice) ++ cancel_trace sessionId (Some t) ++ rest)).
      * apply elem_of_app. right. apply elem_of_app. left.
        unfold cancel_trace. simpl. do 3 right. by left.
      * fold r. rewrite Hrun. cbn [snd]. rewrite Htr. simpl.
        by rewrite <- app_assoc.
    + split; [|done]. intros Hin. exfalso.
      rewrite (effects_app _ _ _ (Hupdate eq_refl)) in Hin.
      apply elem_of_cons in Hin as [?|Hin]; [done|].
      apply elem_of_app in Hin as [Hin|Hin].
      * subst notice. destruct (0 <? length c.1).
        -- apply elem_of_cons in Hin as [?|Hin]; [done|]. by apply elem_of_nil in Hin.
        -- by apply elem_of_nil in Hin.
      * apply elem_of_cons in Hin as [?|Hin]; [done|]. by apply elem_of_nil in Hin.
Qed.

(** C8, as far as the code goes against it: the first effect of
    [OnInputChanged] is a read of the registry with the mutex free, so its
    effects break the lock discipline, whatever the session, the inputs and
    the world; [getExecution], which takes the mutex for the same read, and
    with it [CancelExecutionForSession] and [ExecuteDashboard], keep it. *)
Theorem OnInputChanged_registry_read_unlocked ctx sessionId inputs changedInput w :
  (∃ rest, effects (OnInputChanged ctx sessionId inputs changedInput) w
           = MapRead sessionId :: rest) ∧
  disciplined false (effects (OnInputChanged ctx sessionId inputs changedInput) w) = false ∧
  effects (getExecution sessionId) w = [Lock; MapRead sessionId; Unlock].
Proof.
  assert (∃ rest, effects (OnInputChanged ctx sessionId inputs changedInput) w
                  = MapRead sessionId :: rest) as [rest Hrest].
  { destruct (executions (executor w) !! sessionId) as [t|] eqn:Hfound;
      [destruct (heap w !! t) as [tree|] eqn:Hheap|].
    - pose (c := clearDependentInputs (Root tree) changedInput inputs).
      pose (notice :=
              if 0 <? length c.1
              then [Publish (tree_workspace tree)
                      (InputValuesCleared c.1 (tree_sessionId tree) (tree_id tree))]
              else []).
      destruct (IsFinished (GetRunStatus tree) || not_nil (index (inputValues tree) changedInput))
        eqn:Hr.
      + destruct (ExecuteDashboard_effects ctx sessionId (GetResource (Root tree)) c.2
                    (tree_workspace tree) []
                    (with_trace (λ tr, tr ++ MapRead sessionId :: notice) w))
          as (rest & Htr & _).
        eexists. apply effects_app.
        rewrite (OnInputChanged_registered _ _ _ _ _ _ _ Hfound Hheap). cbv zeta.
        fold c notice. rewrite Hr. cbn [snd]. rewrite Htr. simpl.
        rewrite <- app_assoc. simpl. done.
      + eexists. apply effects_app.
        rewrite (OnInputChanged_registered _ _ _ _ _ _ _ Hfound Hheap). cbv zeta.
        fold c notice. rewrite Hr. simpl. rewrite <- app_assoc. simpl. done.
    - exists []. apply effects_app. unfold OnInputChanged.
      step. rewrite Hfound. step. by rewrite Hheap.
    - exists []. apply effects_app. unfold OnInputChanged.
      step. by rewrite Hfound. }
  split; [by exists rest|]. split; [by rewrite Hrest|].
  apply effects_app. by rewrite getExecution_run.
Qed.
End Changes.

(** ** The claims on concrete requests *)

Lemma ExecuteDashboard_batch_missing_inputs_witness :
  (ExecuteDashboard (trees := specTrees) background "s1" "dashboard.region" ∅
     "ws" [] (newWorld false)).1
  = Some "input 'region' must be provided using '--arg name=value'" ∧
  (ExecuteDashboard (trees := specTrees) background "s1" "dashboard.cascade"
     {["A" := Some (VStr "x")]} "ws" [] (newWorld false)).1
  = Some "inputs 'B,C' must be provided using '--arg name=value'".
Proof.
  split.
  - refine (proj1 (ExecuteDashboard_batch_missing_inputs (trees := specTrees)
                     background "s1" "dashboard.region" ∅ "ws" [] (newWorld false)
                     _ eq_refl eq_refl _)).
    by vm_compute.
  - refine (proj1 (ExecuteDashboard_batch_missing_inputs (trees := specTrees)
                     background "s1" "dashboard.cascade" {["A" := Some (VStr "x")]}
                     "ws" [] (newWorld false) _ eq_refl eq_refl _)).
    by vm_compute.
Defined.

Lemma ExecuteDashboard_error_event_witness :
  let r := ExecuteDashboard (trees := specTrees) expired "s1" "dashboard.region" ∅
             "ws" [] (newWorld true) in
  r.1 = Some "execution timed out" ∧
  published r.2 = [("ws", ExecutionError "execution timed out" "s1" 0%Z)].
Proof.
  intros r.
  destruct (ExecuteDashboard_error_event (trees := specTrees) expired "s1"
              "dashboard.region" ∅ "ws" [] (newWorld true)) as [Htimeout Hevent].
  assert (r.1 = Some "execution timed out") as Hr.
  { apply Htimeout; reflexivity. }
  split; [exact Hr|]. exact (proj2 (Hevent _ Hr)).
Defined.

Lemma ExecuteDashboard_failure_unregistered_witness :
  let r := ExecuteDashboard (trees := specTrees) background "s1" "dashboard.unknown"
             ∅ "ws" [] blank_world in
  executions (executor blank_world) !! "s1" = Some 0 ∧
  r.1 = Some "resource dashboard.unknown not found" ∧
  executions (executor r.2) !! "s1" = None ∧
  GetRunStatus <$> heap r.2 !! 0 = Some RunCanceled.
Proof.
  intros r. split; [reflexivity|].
  destruct (ExecuteDashboard_failure_unregistered (trees := specTrees) background
              "s1" "dashboard.unknown" ∅ "ws" [] blank_world
              "resource dashboard.unknown not found" (or_introl eq_refl))
    as (Herr & _ & Hnone & _ & Hold & _).
  split; [exact Herr|]. split; [exact Hnone|].
  fold r in Hold. rewrite (Hold 0 eq_refl (ex_intro _ _ eq_refl)). reflexivity.
Defined.

Lemma CancelExecutionForSession_cases_witness :
  published (CancelExecutionForSession (trees := specTrees) background "s1"
               (newWorld true)).2 = [] ∧
  (getExecution "s1"
     (CancelExecutionForSession (trees := specTrees) background "s1" blank_world).2).1
  = None.
Proof.
  split.
  - exact (proj2 (proj1 (CancelExecutionForSession_cases (trees := specTrees)
                           background "s1" (newWorld true)) eq_refl)).
  - destruct (proj2 (CancelExecutionForSession_cases (trees := specTrees)
                       background "s1" blank_world) 0 eq_refl)
      as (_ & _ & _ & Hgone).
    exact Hgone.
Defined.

Lemma OnInputChanged_unknown_session_witness :
  executions (executor (newWorld true)) !! "nope" = None ∧
  (OnInputChanged (trees := specTrees) background "nope" ∅ "x" (newWorld true)).1
  = Returned (Some "no dashboard running for session nope") ∧
  published (OnInputChanged (trees := specTrees) background "nope" ∅ "x"
               (newWorld true)).2 = [].
Proof.
  split; [reflexivity|].
  destruct (OnInputChanged_unknown_session (trees := specTrees) background "nope"
              ∅ "x" (newWorld true) eq_refl) as (Herr & _ & Hpub).
  split; [exact Herr|exact Hpub].
Defined.

Lemma NewDashboardExecutor_interactive_witness :
  interactive (NewDashboardExecutor "default") = true ∧
  ∀ tree, validateInputs (NewDashboardExecutor "default") tree ∅ = None.
Proof.
  destruct (NewDashboardExecutor_interactive "default") as (_ & Hint & Hval & _).
  split; [exact Hint|]. intros tree. exact (Hval _ tree ∅ Hint).
Defined.

Lemma OnInputChanged_restart_iff_witness :
  (OnInputChanged (trees := specTrees) background "s1" {["A" := Some (VStr "x")]}
     "A" blank_world).1 = Returned None ∧
  TreeCancel 0 ∈
    effects (OnInputChanged (trees := specTrees) background "s1" abc_inputs "A")
      seeded_world.
Proof.
  split.
  - refine (proj1 (proj1 (proj2 (OnInputChanged_restart_iff (trees := specTrees)
                     background "s1" {["A" := Some (VStr "x")]} "A" blank_world 0 _
                     eq_refl eq_refl)) eq_refl)).
  - refine (proj2 (proj2 (proj2 (OnInputChanged_restart_iff (trees := specTrees)
                     background "s1" abc_inputs "A" seeded_world 0 _
                     eq_refl eq_refl))) eq_refl).
Defined.

(** The cascade of the spec: with A, B and C set, a change of A clears B and
    C, publishes the notice and restarts the dashboard. *)
Example OnInputChanged_cascade :
  let r := OnInputChanged (trees := specTrees) background "s1" abc_inputs "A"
             seeded_world in
  r.1 = Returned None ∧
  drop (length (published seeded_world)) (published r.2)
  = [("ws", InputValuesCleared ["B"; "C"] "s1" "exec-s1")] ∧
  effects (OnInputChanged (trees := specTrees) background "s1" abc_inputs "A")
    seeded_world
  = [MapRead "s1";
     Publish "ws" (InputValuesCleared ["B"; "C"] "s1" "exec-s1");
     Lock; MapRead "s1"; Unlock; TreeCancel 0; Lock; MapDelete "s1"; Unlock;
     Lock; MapWrite "s1"; Unlock;
     TreeSetInputValues 1
       (<["B" := None]> (<["C" := None]> abc_inputs));
     GoExecute 1 background].
Proof. vm_compute. repeat split. Qed.

(** The unlocked read on a concrete request. *)
Example OnInputChanged_unlocked_read :
  let t := effects (OnInputChanged (trees := specTrees) background "s1" ∅ "A")
             blank_world in
  t = [MapRead "s1";
       Publish "ws" (InputValuesCleared ["B"] "s1" "exec-s1");
       TreeSetInputValues 0 ∅] ∧
  disciplined false t = false.
Proof. vm_compute. by split. Qed.

(** * Further properties of the executor *)

(** ** Clearing *)

(** A loop over inputs that are all nil appends nothing and writes nothing. *)
Lemma clearLoop_all_nil rec l acc (m : Inputs) :
  (∀ y, y ∈ l → non_nil m y = false) →
  clearLoop rec l acc m = Some (acc, m).
Proof.
  induction l as [|d rest IH]; intros Hnil; simpl; [done|].
  rewrite (Hnil d) by (by left). apply IH. intros y Hy. apply Hnil. by right.
Qed.

Lemma clearDependentInputs_all_nil root x (m : Inputs) :
  (∀ y, dependent root x y → non_nil m y = false) →
  clearDependentInputs root x m = (GetInputsDependingOn root x, m).
Proof.
  intros Hnil. unfold clearDependentInputs. simpl.
  rewrite clearLoop_guard, clearLoop_all_nil; done.
Qed.

(** When no declared dependent of the changed input holds a value,
    [clearDependentInputs] returns the declared dependents as they are and
    leaves the map as it is. *)
Theorem clearDependentInputs_nothing_to_clear root changedInput (inputs : Inputs) :
  (∀ y, y ∈ GetInputsDependingOn root changedInput → index inputs y = None) →
  clearDependentInputs root changedInput inputs
  = (GetInputsDependingOn root changedInput, inputs).
Proof.
  intros Hnil. apply clearDependentInputs_all_nil. intros y Hy.
  unfold non_nil. by rewrite (Hnil y Hy).
Qed.

Lemma clearDependentInputs_nothing_to_clear_witness :
  clearDependentInputs cyclic_root "A" {["A" := Some (VStr "x")]}
  = (["B"; "C"], {["A" := Some (VStr "x")]}).
Proof.
  apply (clearDependentInputs_nothing_to_clear cyclic_root "A").
  intros y Hy. change (y ∈ ["B"; "C"]) in Hy.
  apply elem_of_cons in Hy as [->|Hy]; [reflexivity|].
  apply elem_of_cons in Hy as [->|Hy]; [reflexivity|].
  by apply elem_of_nil in Hy.
Defined.

(** Clearing twice is clearing once: on the map a call has left, a second
    call for the same input returns the declared dependents only and writes
    nothing. *)
Theorem clearDependentInputs_again root changedInput (inputs : Inputs) :
  let r := clearDependentInputs root changedInput inputs in
  clearDependentInputs root changedInput r.2
  = (GetInputsDependingOn root changedInput, r.2).
Proof.
  intros r. apply clearDependentInputs_all_nil. intros y Hy.
  pose proof (clearDependentInputs_clears root changedInput inputs) as Hc.
  apply (clears_nil _ _ _ _ _ Hc), (clears_direct _ _ _ _ _ Hc), Hy.
Qed.

(** Clearing neither adds nor removes a key: the map has the same keys, and
    so the same length, before and after. *)
Theorem clearDependentInputs_keys root changedInput (inputs : Inputs) :
  let r := clearDependentInputs root changedInput inputs in
  dom r.2 = dom inputs ∧ size r.2 = size inputs.
Proof.
  intros r.
  pose proof (clears_final_map _ _ _ _ _
                (clearDependentInputs_clears root changedInput inputs)) as Hmap.
  fold r in Hmap.
  assert (dom r.2 = dom inputs) as Hdom.
  { apply set_eq. intros k. rewrite !elem_of_dom, Hmap.
    destruct (non_nil inputs k && bool_decide (k ∈ r.1)) eqn:Hk; [|done].
    apply andb_true_iff in Hk as [Hk _]. unfold non_nil, not_nil, index in Hk.
    destruct (inputs !! k) as [v|]; [|done]. split; by eexists. }
  split; [done|]. by rewrite <- !size_dom, Hdom.
Qed.

(** An input that is not downstream of the changed input, in the declared
    graph, keeps its entry; in particular the changed input keeps its new
    value unless it depends on itself. *)
Theorem clearDependentInputs_upstream_untouched root changedInput (inputs : Inputs) k :
  ¬ closure root changedInput k →
  (clearDependentInputs root changedInput inputs).2 !! k = inputs !! k.
Proof.
  intros Hk.
  pose proof (clearDependentInputs_clears root changedInput inputs) as Hc.
  rewrite (clears_final_map _ _ _ _ _ Hc).
  case_bool_decide as Hin; [|by rewrite andb_false_r].
  destruct Hk. apply (reach_closure _ inputs), (clears_sound _ _ _ _ _ Hc), Hin.
Qed.

(** ** Batch-mode validation *)

(** In batch mode [validateInputs] accepts the inputs exactly when every
    name of [InputRuntimeDependencies] is a key of the map; a key that holds
    nil counts as provided. *)
Theorem validateInputs_batch_iff e tree (inputs : Inputs) :
  interactive e = false →
  validateInputs e tree inputs = None ↔
  ∀ x, x ∈ InputRuntimeDependencies tree → is_Some (inputs !! x).
Proof.
  intros Hbatch. unfold validateInputs. rewrite Hbatch.
  destruct (missing inputs (InputRuntimeDependencies tree)) as [|n names] eqn:Hm;
    simpl.
  - split; [intros _|done]. intros x Hx.
    destruct (inputs !! x) as [v|] eqn:Hv; [by eexists|].
    destruct (filter_nil_not_elem_of _ _ x Hm Hv Hx).
  - split; [done|]. intros Hall. exfalso.
    assert (n ∈ missing inputs (InputRuntimeDependencies tree)) as Hn.
    { rewrite Hm. by left. }
    apply list_elem_of_filter in Hn as [Hnone Hin].
    apply Hall in Hin. rewrite Hnone in Hin. by apply is_Some_None in Hin.
Qed.

Lemma validateInputs_batch_iff_witness :
  validateInputs (executor (newWorld false))
    {| Root := tree_root; tree_id := "e"; tree_sessionId := "s";
       tree_workspace := "ws"; inputValues := ∅; GetRunStatus := RunInitialized;
       InputRuntimeDependencies := ["region"] |}
    {["region" := None]} = None.
Proof.
  apply (validateInputs_batch_iff (executor (newWorld false))); [reflexivity|].
  intros x Hx. simpl in Hx.
  apply elem_of_cons in Hx as [->|Hx]; [by eexists|by apply elem_of_nil in Hx].
Defined.

(** [validateInputs] looks at the keys of the inputs only: two maps with the
    same keys are accepted or rejected alike, with the same message. *)
Theorem validateInputs_keys_only e tree (inputs inputs' : Inputs) :
  dom inputs = dom inputs' →
  validateInputs e tree inputs = validateInputs e tree inputs'.
Proof.
  intros Hdom. unfold validateInputs.
  assert (missing inputs (InputRuntimeDependencies tree)
          = missing inputs' (InputRuntimeDependencies tree)) as ->; [|done].
  unfold missing. apply list_filter_iff. intros x.
  by rewrite <- !not_elem_of_dom, Hdom.
Qed.

Lemma validateInputs_keys_only_witness :
  validateInputs (executor (newWorld false))
    {| Root := tree_root; tree_id := "e"; tree_sessionId := "s";
       tree_workspace := "ws"; inputValues := ∅; GetRunStatus := RunInitialized;
       InputRuntimeDependencies := ["A"; "region"] |}
    {["region" := None]}
  = validateInputs (executor (newWorld false))
    {| Root := tree_root; tree_id := "e"; tree_sessionId := "s";
       tree_workspace := "ws"; inputValues := ∅; GetRunStatus := RunInitialized;
       InputRuntimeDependencies := ["A"; "region"] |}
    {["region" := Some (VStr "eu")]}.
Proof.
  apply validateInputs_keys_only. by rewrite !dom_singleton_L.
Defined.

(** ** [ExecuteDashboard], case by case *)

Section Requests.
Context {trees : TreeMethods}.

Lemma ExecuteDashboard_run ctx sessionId rootResource inputs workspace opts w :
  ExecuteDashboard ctx sessionId rootResource inputs workspace opts w =
  let fail err w' :=
    (Some err,
     with_trace (λ t, t ++ [Publish workspace (ExecutionError err sessionId (clock w))]) w') in
  match newDashboardExecutionTree rootResource sessionId workspace
          (defaultClient (executor w)) opts with
  | inr err => fail err (cancelled sessionId w)
  | inl tree =>
      match validateInputs (executor w) tree inputs with
      | Some err =>
          fail err (with_heap (insert (fresh (dom (heap (cancelled sessionId w)))) tree)
                      (cancelled sessionId w))
      | None =>
          match Err ctx with
          | Some ctxErr =>
              fail (if String.eqb ctxErr DeadlineExceeded
                    then "execution timed out" else ctxErr)
                (started ctx sessionId inputs tree w)
          | None => (None, started ctx sessionId inputs tree w)
          end
      end
  end.
Proof.
  rewrite ExecuteDashboard_unfold. cbv zeta.
  destruct (newDashboardExecutionTree rootResource sessionId workspace
              (defaultClient (executor w)) opts) as [tree|err] eqn:Hnew.
  - destruct (validateInputs (executor w) tree inputs) as [err|] eqn:Hval.
    + rewrite (ExecuteDashboard_body_validation_fails _ _ _ _ _ _ _ _ _ Hnew Hval).
      cbn [fst snd]. by rewrite ExecuteDashboard_deferred_error.
    + rewrite (ExecuteDashboard_body_starts _ _ _ _ _ _ _ _ Hnew Hval).
      cbn [fst snd]. destruct (Err ctx) as [ce|] eqn:Hctx.
      * rewrite (ExecuteDashboard_deferred_context _ _ _ _ _ Hctx).
        by rewrite ExecuteDashboard_deferred_error.
      * by rewrite (ExecuteDashboard_deferred_nil _ _ _ _ Hctx).
  - rewrite (ExecuteDashboard_body_construction_fails _ _ _ _ _ _ _ _ Hnew).
    cbn [fst snd]. by rewrite ExecuteDashboard_deferred_error.
Qed.

Lemma published_cancelled sessionId w :
  published (cancelled sessionId w) = published w.
Proof.
  unfold published, cancelled, cancel_trace. simpl. rewrite omap_app.
  destruct (executions (executor w) !! sessionId); simpl; apply app_nil_r.
Qed.

Lemma published_started ctx sessionId inputs tree w :
  published (started ctx sessionId inputs tree w) = published w.
Proof.
  unfold published at 1. unfold started. cbn [trace].
  rewrite omap_app. fold (published (cancelled sessionId w)).
  rewrite published_cancelled. destruct (0 <? size inputs); simpl; apply app_nil_r.
Qed.

(** [ExecuteDashboard] returns nil exactly when the tree is built, the
    inputs pass the validation and the context has no error at return. *)
Theorem ExecuteDashboard_nil_iff ctx sessionId rootResource inputs workspace opts w :
  (ExecuteDashboard ctx sessionId rootResource inputs workspace opts w).1 = None ↔
  (∃ tree,
     newDashboardExecutionTree rootResource sessionId workspace
       (defaultClient (executor w)) opts = inl tree ∧
     validateInputs (executor w) tree inputs = None) ∧
  Err ctx = None.
Proof.
  rewrite ExecuteDashboard_run. cbv zeta.
  destruct (newDashboardExecutionTree rootResource sessionId workspace
              (defaultClient (executor w)) opts) as [tree|err].
  - destruct (validateInputs (executor w) tree inputs) as [err|] eqn:Hval.
    + simpl. split; [done|]. intros [(tree' & [= <-] & ?) _]. congruence.
    + destruct (Err ctx) as [ce|]; simpl.
      * split; [done|]. by intros [_ ?].
      * split; [|done]. intros _. split; [|done]. by exists tree.
  - simpl. split; [done|]. by intros [(tree' & ? & _) _].
Qed.

(** A successful [ExecuteDashboard]: the session is registered to a tree at
    a new address, which holds the tree that was built, with
    [SetInputValues] applied when the inputs map is not empty; nothing is
    published, and the last effect is the start of the goroutine on that
    tree. *)
Theorem ExecuteDashboard_registers
    ctx sessionId rootResource inputs workspace opts w tree :
  newDashboardExecutionTree rootResource sessionId workspace
    (defaultClient (executor w)) opts = inl tree →
  validateInputs (executor w) tree inputs = None →
  Err ctx = None →
  let r := ExecuteDashboard ctx sessionId rootResource inputs workspace opts w in
  let t := fresh (dom (heap w)) in
  r.1 = None ∧
  executions (executor r.2) = <[sessionId := t]> (executions (executor w)) ∧
  heap w !! t = None ∧
  heap r.2 !! t
  = Some (if 0 <? size inputs then SetInputValues inputs tree else tree) ∧
  published r.2 = published w ∧
  ∃ before, effects (ExecuteDashboard ctx sessionId rootResource inputs workspace opts) w
            = before ++ [GoExecute t ctx].
Proof.
  intros Hnew Hval Hctx r t.
  assert (r = (None, started ctx sessionId inputs tree w)) as Hr.
  { subst r. rewrite ExecuteDashboard_run. cbv zeta. by rewrite Hnew, Hval, Hctx. }
  assert (fresh (dom (heap (cancelled sessionId w))) = t) as Ht.
  { by rewrite dom_heap_cancelled. }
  split; [by rewrite Hr|]. split; [|split; [|split; [|split]]].
  - rewrite Hr. unfold started. cbn [snd executor executions]. rewrite Ht.
    unfold cancelled. cbn [executor executions]. apply insert_delete_eq.
  - apply not_elem_of_dom, is_fresh.
  - rewrite Hr. unfold started. cbn [snd heap]. rewrite Ht.
    destruct (0 <? size inputs).
    + by rewrite lookup_alter_eq, lookup_insert_eq.
    + by rewrite lookup_insert_eq.
  - rewrite Hr. apply published_started.
  - exists (cancel_trace sessionId (executions (executor w) !! sessionId) ++
            [Lock; MapWrite sessionId; Unlock] ++
            (if 0 <? size inputs then [TreeSetInputValues t inputs] else [])).
    apply effects_app. fold r. rewrite Hr. unfold started.
    cbn [snd trace cancelled]. rewrite Ht. by rewrite <- !app_assoc.
Qed.

(** An error of the context other than the elapsed deadline (a cancelled
    context) is returned as it is when the body has no error of its own. *)
Theorem ExecuteDashboard_context_error
    ctx sessionId rootResource inputs workspace opts w ctxErr :
  (ExecuteDashboard_body ctx sessionId rootResource inputs workspace opts w).1 = None →
  Err ctx = Some ctxErr →
  ctxErr ≠ DeadlineExceeded →
  (ExecuteDashboard ctx sessionId rootResource inputs workspace opts w).1 = Some ctxErr.
Proof.
  intros Hbody Hctx Hne. rewrite ExecuteDashboard_unfold, Hbody.
  rewrite (ExecuteDashboard_deferred_context _ _ _ _ _ Hctx).
  rewrite ExecuteDashboard_deferred_error. cbn [fst].
  apply String.eqb_neq in Hne. by rewrite Hne.
Qed.

(** [ExecuteDashboard] publishes one event when it returns an error, the
    [ExecutionError] with that error, and none when it returns nil. *)
Theorem ExecuteDashboard_published ctx sessionId rootResource inputs workspace opts w :
  let r := ExecuteDashboard ctx sessionId rootResource inputs workspace opts w in
  published r.2 =
  published w ++
  match r.1 with
  | Some err => [(workspace, ExecutionError err sessionId (clock w))]
  | None => []
  end.
Proof.
  intros r. subst r. rewrite ExecuteDashboard_run. cbv zeta.
  destruct (newDashboardExecutionTree rootResource sessionId workspace
              (defaultClient (executor w)) opts) as [tree|err].
  - destruct (validateInputs (executor w) tree inputs) as [err|].
    + cbn [fst snd]. rewrite published_with_trace. simpl.
      f_equal. apply published_cancelled.
    + destruct (Err ctx) as [ce|]; cbn [fst snd].
      * rewrite published_with_trace. simpl. f_equal. apply published_started.
      * rewrite published_started. by rewrite app_nil_r.
  - cbn [fst snd]. rewrite published_with_trace. simpl.
    f_equal. apply published_cancelled.
Qed.
End Requests.

(** ** The registry under the operations *)

Lemma is_Some_lookup_alter {A} (f : A → A) (m : gmap nat A) i j :
  is_Some (alter f i m !! j) ↔ is_Some (m !! j).
Proof. by rewrite <- !elem_of_dom, dom_alter_L. Qed.

Lemma consistent_with_trace f w : consistent w → consistent (with_trace f w).
Proof. done. Qed.

Lemma consistent_alter f t w :
  consistent w → consistent (with_heap (alter f t) w).
Proof.
  intros [Ha Hd]. split; [|done]. intros s p Hs. simpl.
  apply is_Some_lookup_alter. by apply (Ha s).
Qed.

Lemma consistent_alloc tree w :
  consistent w → consistent (with_heap (insert (fresh (dom (heap w))) tree) w).
Proof.
  intros [Ha Hd]. split; [|done]. intros s p Hs. simpl.
  rewrite lookup_insert. case_decide; [by eexists|]. by apply (Ha s).
Qed.

Section Registry.
Context {trees : TreeMethods}.

Lemma consistent_cancelled sessionId w :
  consistent w → consistent (cancelled sessionId w).
Proof.
  intros [Ha Hd]. split.
  - intros s p. unfold cancelled. cbn [executor executions heap].
    intros Hs. apply lookup_delete_Some in Hs as [_ Hs]. apply Ha in Hs.
    destruct (executions (executor w) !! sessionId); [|done].
    by apply is_Some_lookup_alter.
  - intros s1 s2 p. unfold cancelled. cbn [executor executions].
    intros [_ H1]%lookup_delete_Some [_ H2]%lookup_delete_Some. by apply (Hd s1 s2 p).
Qed.

Lemma consistent_started ctx sessionId inputs tree w :
  consistent w → consistent (started ctx sessionId inputs tree w).
Proof.
  intros Hw. pose proof (consistent_cancelled sessionId w Hw) as [Ha Hd].
  assert (∀ s, executions (executor (cancelled sessionId w)) !! s
               ≠ Some (fresh (dom (heap (cancelled sessionId w))))) as Hfresh.
  { intros s Hs. apply Ha in Hs. apply elem_of_dom in Hs. by apply is_fresh in Hs. }
  split.
  - intros s p. unfold started. cbn [executor executions heap].
    rewrite lookup_insert. case_decide as Hs.
    + intros [= <-]. destruct (0 <? size inputs).
      * apply is_Some_lookup_alter. rewrite lookup_insert_eq. by eexists.
      * rewrite lookup_insert_eq. by eexists.
    + intros Hp. apply Ha in Hp.
      assert (is_Some (<[fresh (dom (heap (cancelled sessionId w))) := tree]>
                         (heap (cancelled sessionId w)) !! p)) as Hin.
      { rewrite lookup_insert. case_decide; [by eexists|done]. }
      destruct (0 <? size inputs); [by apply is_Some_lookup_alter|done].
  - intros s1 s2 p. unfold started. cbn [executor executions].
    rewrite !lookup_insert. repeat case_decide; subst; try done.
    + intros [= <-] H2. by destruct (Hfresh s2).
    + intros H1 [= <-]. by destruct (Hfresh s1).
    + apply Hd.
Qed.

Lemma ExecuteDashboard_consistent ctx sessionId rootResource inputs workspace opts w :
  consistent w →
  consistent (ExecuteDashboard ctx sessionId rootResource inputs workspace opts w).2.
Proof.
  intros Hw. rewrite ExecuteDashboard_run. cbv zeta.
  pose proof (consistent_cancelled sessionId w Hw) as Hc.
  pose proof (consistent_started ctx sessionId inputs) as Hs.
  destruct (newDashboardExecutionTree _ _ _ _ _) as [tree|err].
  - destruct (validateInputs _ _ _) as [err|].
    + apply consistent_with_trace. by apply consistent_alloc.
    + destruct (Err ctx) as [ce|]; [apply consistent_with_trace|]; by apply Hs.
  - by apply consistent_with_trace.
Qed.

(** The registry stays consistent under the three public operations: if
    every entry points to a tree of the heap and no two sessions share a
    tree, the same holds afterwards. It holds in the world of a new
    executor. *)
Theorem operations_consistent ctx sessionId rootResource inputs workspace opts
    changedInput w :
  consistent w →
  consistent (ExecuteDashboard ctx sessionId rootResource inputs workspace opts w).2 ∧
  consistent (CancelExecutionForSession ctx sessionId w).2 ∧
  consistent (OnInputChanged ctx sessionId inputs changedInput w).2.
Proof.
  intros Hw. split; [by apply ExecuteDashboard_consistent|]. split.
  - rewrite CancelExecutionForSession_run. by apply consistent_cancelled.
  - destruct (executions (executor w) !! sessionId) as [t|] eqn:Hfound;
      [destruct (heap w !! t) as [tree|] eqn:Hheap|].
    + rewrite (OnInputChanged_registered _ _ _ _ _ _ _ Hfound Hheap). cbv zeta.
      destruct (IsFinished (GetRunStatus tree) || _); cbn [snd].
      * by apply ExecuteDashboard_consistent, consistent_with_trace.
      * by apply consistent_alter, consistent_with_trace, consistent_with_trace.
    + unfold OnInputChanged. step. rewrite Hfound. step. rewrite Hheap.
      by apply (consistent_with_trace _ w).
    + unfold OnInputChanged. step. rewrite Hfound.
      by apply (consistent_with_trace _ w).
Qed.

(** On a registry whose entries all point to trees, [OnInputChanged] does
    not panic: it returns. *)
Theorem OnInputChanged_returns ctx sessionId inputs changedInput w :
  registry_allocated w →
  ∃ err, (OnInputChanged ctx sessionId inputs changedInput w).1 = Returned err.
Proof.
  intros Ha. destruct (executions (executor w) !! sessionId) as [t|] eqn:Hfound.
  - destruct (Ha _ _ Hfound) as [tree Hheap].
    rewrite (OnInputChanged_registered _ _ _ _ _ _ _ Hfound Hheap). cbv zeta.
    destruct (IsFinished (GetRunStatus tree) || _); by eexists.
  - unfold OnInputChanged. step. rewrite Hfound. by eexists.
Qed.
End Registry.

Lemma consistent_newWorld interactive : consistent (newWorld interactive).
Proof. split; [intros s p|intros s1 s2 p]; simpl; by rewrite lookup_empty. Qed.

Lemma operations_consistent_witness :
  consistent blank_world ∧
  consistent (OnInputChanged (trees := specTrees) background "s1" abc_inputs "A"
                blank_world).2.
Proof.
  assert (consistent blank_world) as Hw.
  { exact (proj1 (operations_consistent (trees := specTrees) background "s1"
                    "dashboard.cascade" ∅ "ws" [] "A" (newWorld true)
                    (consistent_newWorld true))). }
  split; [exact Hw|].
  exact (proj2 (proj2 (operations_consistent (trees := specTrees) background "s1"
                         "dashboard.cascade" abc_inputs "ws" [] "A" blank_world Hw))).
Defined.

Lemma OnInputChanged_returns_witness :
  ∃ err, (OnInputChanged (trees := specTrees) background "s1" abc_inputs "A"
            seeded_world).1 = Returned err.
Proof.
  apply (OnInputChanged_returns (trees := specTrees)).
  exact (proj1 (ExecuteDashboard_consistent (trees := specTrees) background "s1"
                  "dashboard.cascade" abc_inputs "ws" [] (newWorld true)
                  (consistent_newWorld true))).
Defined.

(** ** What the operations leave alone *)

Lemma elsewhere_with_trace sessionId f w w' :
  elsewhere_unchanged sessionId w w' →
  elsewhere_unchanged sessionId w (with_trace f w').
Proof. done. Qed.

Lemma other_trees_with_trace sessionId f w w' :
  other_trees_unchanged sessionId w w' →
  other_trees_unchanged sessionId w (with_trace f w').
Proof. done. Qed.

(** Case analysis on a membership in an explicit list. *)
Ltac members H :=
  repeat first
    [ apply elem_of_app in H as [H|H]
    | apply elem_of_cons in H as [H|H]
    | apply elem_of_nil in H; destruct H ];
  try discriminate H.

Section Locality.
Context {trees : TreeMethods}.

Lemma elsewhere_cancelled sessionId w :
  elsewhere_unchanged sessionId w (cancelled sessionId w).
Proof.
  repeat split. intros s Hs. unfold cancelled. cbn [executor executions].
  by apply lookup_delete_ne.
Qed.

Lemma elsewhere_started ctx sessionId inputs tree w :
  elsewhere_unchanged sessionId w (started ctx sessionId inputs tree w).
Proof.
  repeat split. intros s Hs. unfold started, cancelled. cbn [executor executions].
  rewrite lookup_insert_ne by done. by apply lookup_delete_ne.
Qed.

Lemma ExecuteDashboard_elsewhere ctx sessionId rootResource inputs workspace opts w :
  elsewhere_unchanged sessionId w
    (ExecuteDashboard ctx sessionId rootResource inputs workspace opts w).2.
Proof.
  rewrite ExecuteDashboard_run. cbv zeta.
  destruct (newDashboardExecutionTree _ _ _ _ _) as [tree|err].
  - destruct (validateInputs _ _ _) as [err|].
    + apply elsewhere_with_trace, elsewhere_cancelled.
    + destruct (Err ctx) as [ce|]; [apply elsewhere_with_trace|];
        apply elsewhere_started.
  - apply elsewhere_with_trace, elsewhere_cancelled.
Qed.

(** The three public operations touch the registry at their session only:
    the entries of all other sessions, the mode, the default client and the
    clock are as before. *)
Theorem operations_local ctx sessionId rootResource inputs workspace opts
    changedInput w :
  elsewhere_unchanged sessionId w
    (ExecuteDashboard ctx sessionId rootResource inputs workspace opts w).2 ∧
  elsewhere_unchanged sessionId w (CancelExecutionForSession ctx sessionId w).2 ∧
  elsewhere_unchanged sessionId w
    (OnInputChanged ctx sessionId inputs changedInput w).2.
Proof.
  split; [apply ExecuteDashboard_elsewhere|]. split.
  - rewrite CancelExecutionForSession_run. apply elsewhere_cancelled.
  - destruct (executions (executor w) !! sessionId) as [t|] eqn:Hfound;
      [destruct (heap w !! t) as [tree|] eqn:Hheap|].
    + rewrite (OnInputChanged_registered _ _ _ _ _ _ _ Hfound Hheap). cbv zeta.
      destruct (IsFinished (GetRunStatus tree) || _); cbn [snd]; [|done].
      apply (ExecuteDashboard_elsewhere ctx sessionId _ _ _ _ (with_trace _ w)).
    + unfold OnInputChanged. step. rewrite Hfound. step. by rewrite Hheap.
    + unfold OnInputChanged. step. by rewrite Hfound.
Qed.

Lemma other_trees_cancelled sessionId w :
  consistent w → other_trees_unchanged sessionId w (cancelled sessionId w).
Proof.
  intros [Ha Hd] s p Hs Hp. unfold cancelled. cbn [heap].
  destruct (executions (executor w) !! sessionId) as [t|] eqn:Hfound; [|done].
  apply lookup_alter_ne. intros ->. by destruct Hs; apply (Hd s sessionId p).
Qed.

Lemma other_trees_alloc sessionId tree w :
  consistent w →
  other_trees_unchanged sessionId w
    (with_heap (insert (fresh (dom (heap (cancelled sessionId w)))) tree)
       (cancelled sessionId w)).
Proof.
  intros Hw s p Hs Hp. cbn [with_heap heap].
  rewrite lookup_insert_ne; [by apply (other_trees_cancelled sessionId w Hw s p)|].
  intros <-. rewrite dom_heap_cancelled in Hp.
  destruct Hw as [Ha _]. apply Ha, elem_of_dom in Hp. by apply is_fresh in Hp.
Qed.

Lemma other_trees_started ctx sessionId inputs tree w :
  consistent w →
  other_trees_unchanged sessionId w (started ctx sessionId inputs tree w).
Proof.
  intros Hw s p Hs Hp.
  pose proof (other_trees_alloc sessionId tree w Hw s p Hs Hp) as Halloc.
  cbn [with_heap heap] in Halloc. unfold started. cbn [heap].
  destruct (0 <? size inputs); [|done].
  rewrite lookup_alter_ne; [done|].
  intros <-. rewrite dom_heap_cancelled in Hp.
  destruct Hw as [Ha _]. apply Ha, elem_of_dom in Hp. by apply is_fresh in Hp.
Qed.

Lemma ExecuteDashboard_other_trees ctx sessionId rootResource inputs workspace opts w :
  consistent w →
  other_trees_unchanged sessionId w
    (ExecuteDashboard ctx sessionId rootResource inputs workspace opts w).2.
Proof.
  intros Hw. rewrite ExecuteDashboard_run. cbv zeta.
  destruct (newDashboardExecutionTree _ _ _ _ _) as [tree|err].
  - destruct (validateInputs _ _ _) as [err|].
    + by apply other_trees_with_trace, other_trees_alloc.
    + destruct (Err ctx) as [ce|]; [apply other_trees_with_trace|];
        by apply other_trees_started.
  - by apply other_trees_with_trace, other_trees_cancelled.
Qed.

(** On a consistent registry, the three public operations leave the trees
    of all other sessions as they are: no call of [Cancel] or
    [SetInputValues] reaches them, and no new tree takes their place. *)
Theorem operations_keep_other_trees ctx sessionId rootResource inputs workspace
    opts changedInput w :
  consistent w →
  other_trees_unchanged sessionId w
    (ExecuteDashboard ctx sessionId rootResource inputs workspace opts w).2 ∧
  other_trees_unchanged sessionId w (CancelExecutionForSession ctx sessionId w).2 ∧
  other_trees_unchanged sessionId w
    (OnInputChanged ctx sessionId inputs changedInput w).2.
Proof.
  intros Hw. split; [by apply ExecuteDashboard_other_trees|]. split.
  - rewrite CancelExecutionForSession_run. by apply other_trees_cancelled.
  - destruct (executions (executor w) !! sessionId) as [t|] eqn:Hfound;
      [destruct (heap w !! t) as [tree|] eqn:Hheap|].
    + rewrite (OnInputChanged_registered _ _ _ _ _ _ _ Hfound Hheap). cbv zeta.
      destruct (IsFinished (GetRunStatus tree) || _); cbn [snd].
      * apply (ExecuteDashboard_other_trees ctx sessionId _ _ _ _ (with_trace _ w)).
        by apply consistent_with_trace.
      * intros s p Hs Hp. cbn [with_heap with_trace heap].
        apply lookup_alter_ne. intros ->.
        destruct Hw as [_ Hd]. by destruct Hs; apply (Hd s sessionId p).
    + unfold OnInputChanged. step. rewrite Hfound. step. by rewrite Hheap.
    + unfold OnInputChanged. step. by rewrite Hfound.
Qed.

(** Cancelling a session twice: the second call finds nothing and only
    looks the session up; registry and trees are as the first call left
    them. *)
Theorem CancelExecutionForSession_twice ctx sessionId w :
  let w1 := (CancelExecutionForSession ctx sessionId w).2 in
  (CancelExecutionForSession ctx sessionId w1).2
  = with_trace (λ t, t ++ [Lock; MapRead sessionId; Unlock]) w1.
Proof.
  intros w1. subst w1. rewrite !CancelExecutionForSession_run. cbn [snd].
  unfold cancelled at 1. cbn [executor executions heap trace clock interactive defaultClient].
  assert (executions (executor (cancelled sessionId w)) !! sessionId = None) as Hnone.
  { apply lookup_delete_eq. }
  rewrite Hnone. unfold with_trace, cancel_trace. simpl.
  by rewrite delete_id by apply lookup_delete_eq.
Qed.


(** The effects of [ExecuteDashboard], in full. *)
Lemma ExecuteDashboard_trace ctx sessionId rootResource inputs workspace opts w :
  trace (ExecuteDashboard ctx sessionId rootResource inputs workspace opts w).2 =
  trace w ++
  cancel_trace sessionId (executions (executor w) !! sessionId) ++
  match newDashboardExecutionTree rootResource sessionId workspace
          (defaultClient (executor w)) opts with
  | inr err => [Publish workspace (ExecutionError err sessionId (clock w))]
  | inl tree =>
      match validateInputs (executor w) tree inputs with
      | Some err => [Publish workspace (ExecutionError err sessionId (clock w))]
      | None =>
          start_trace ctx sessionId inputs (fresh (dom (heap w))) ++
          match Err ctx with
          | Some ctxErr =>
              [Publish workspace
                 (ExecutionError (if String.eqb ctxErr DeadlineExceeded
                                  then "execution timed out" else ctxErr)
                    sessionId (clock w))]
          | None => []
          end
      end
  end.
Proof.
  rewrite ExecuteDashboard_run. cbv zeta.
  destruct (newDashboardExecutionTree _ _ _ _ _) as [tree|err].
  - destruct (validateInputs _ _ _) as [err|].
    + cbn [snd with_trace with_heap trace cancelled]. by rewrite <- app_assoc.
    + unfold started, start_trace. rewrite dom_heap_cancelled.
      destruct (Err ctx) as [ce|]; cbn [snd with_trace trace cancelled];
        rewrite <- ?app_assoc; [done|]. by rewrite app_nil_r.
  - cbn [snd with_trace trace cancelled]. by rewrite <- app_assoc.
Qed.

(** Replacement: whatever [ExecuteDashboard] returns, the tree that was
    registered for the session has had [Cancel] called on it, once, before
    anything else, and the session no longer points to it. *)
Theorem ExecuteDashboard_replaces
    ctx sessionId rootResource inputs workspace opts w old :
  registry_allocated w →
  executions (executor w) !! sessionId = Some old →
  let r := ExecuteDashboard ctx sessionId rootResource inputs workspace opts w in
  heap r.2 !! old = Cancel <$> heap w !! old ∧
  executions (executor r.2) !! sessionId ≠ Some old ∧
  ∃ rest, effects (ExecuteDashboard ctx sessionId rootResource inputs workspace opts) w
          = [Lock; MapRead sessionId; Unlock; TreeCancel old;
             Lock; MapDelete sessionId; Unlock] ++ rest ∧
          ∀ t, TreeCancel t ∉ rest.
Proof.
  intros Ha Hold r.
  assert (old ≠ fresh (dom (heap (cancelled sessionId w)))) as Hne.
  { intros Heq. rewrite dom_heap_cancelled in Heq.
    apply Ha, elem_of_dom in Hold. rewrite Heq in Hold. by apply is_fresh in Hold. }
  assert (heap (cancelled sessionId w) !! old = Cancel <$> heap w !! old) as Hc.
  { unfold cancelled. cbn [heap]. rewrite Hold. apply lookup_alter_eq. }
  split; [|split].
  - subst r. rewrite ExecuteDashboard_run. cbv zeta.
    destruct (newDashboardExecutionTree _ _ _ _ _) as [tree|err];
      [destruct (validateInputs _ _ _) as [err|]; [|destruct (Err ctx) as [ce|]]|];
      unfold started; cbn [snd with_trace with_heap heap]; try done.
    + by rewrite lookup_insert_ne.
    + destruct (0 <? size inputs);
        rewrite ?lookup_alter_ne by done; by rewrite lookup_insert_ne.
    + destruct (0 <? size inputs);
        rewrite ?lookup_alter_ne by done; by rewrite lookup_insert_ne.
  - subst r. rewrite ExecuteDashboard_run. cbv zeta.
    destruct (newDashboardExecutionTree _ _ _ _ _) as [tree|err];
      [destruct (validateInputs _ _ _) as [err|]; [|destruct (Err ctx) as [ce|]]|];
      unfold started, cancelled;
      cbn [snd with_trace with_heap executor executions];
      rewrite ?lookup_insert_eq, ?lookup_delete_eq; try done;
      intros [= Heq]; by destruct Hne.
  - eexists. split.
    + apply effects_app. rewrite ExecuteDashboard_trace, Hold.
      unfold cancel_trace. rewrite <- app_assoc. reflexivity.
    + intros t Hin.
      destruct (newDashboardExecutionTree _ _ _ _ _) as [tree|err];
        [destruct (validateInputs _ _ _) as [err|]; [|destruct (Err ctx) as [ce|]]|];
        unfold start_trace in Hin; try destruct (0 <? size inputs);
        members Hin.
Qed.

(** [ExecuteDashboard] starts a goroutine only on the tree it has just
    registered for the session: the tree is at a new address, in the heap,
    and the goroutine gets the context of the call. *)
Theorem ExecuteDashboard_starts_registered
    ctx sessionId rootResource inputs workspace opts w t c :
  GoExecute t c ∈ effects (ExecuteDashboard ctx sessionId rootResource inputs workspace opts) w →
  let r := ExecuteDashboard ctx sessionId rootResource inputs workspace opts w in
  c = ctx ∧ t = fresh (dom (heap w)) ∧
  executions (executor r.2) !! sessionId = Some t ∧
  is_Some (heap r.2 !! t).
Proof.
  intros Hin r.
  rewrite (effects_app _ _ _ (ExecuteDashboard_trace ctx sessionId rootResource
                                inputs workspace opts w)) in Hin.
  subst r. rewrite ExecuteDashboard_run. cbv zeta.
  assert (∀ found, GoExecute t c ∉ cancel_trace sessionId found) as Hcancel.
  { intros [old|] Hc; unfold cancel_trace in Hc; members Hc. }
  apply elem_of_app in Hin as [Hin|Hin]; [by apply Hcancel in Hin|].
  destruct (newDashboardExecutionTree _ _ _ _ _) as [tree|err];
    [destruct (validateInputs _ _ _) as [err|]|];
    [by members Hin| |by members Hin].
  assert (c = ctx ∧ t = fresh (dom (heap w))) as [-> ->].
  { unfold start_trace in Hin.
    destruct (Err ctx), (0 <? size inputs); members Hin;
      by injection Hin as -> ->. }
  split; [done|]. split; [done|].
  assert (executions (executor (started ctx sessionId inputs tree w)) !! sessionId
          = Some (fresh (dom (heap w))) ∧
          is_Some (heap (started ctx sessionId inputs tree w) !! fresh (dom (heap w))))
    as Hreg.
  { unfold started. cbn [executor executions heap]. rewrite dom_heap_cancelled.
    split; [apply lookup_insert_eq|].
    destruct (0 <? size inputs).
    - apply is_Some_lookup_alter. rewrite lookup_insert_eq. by eexists.
    - rewrite lookup_insert_eq. by eexists. }
  by destruct (Err ctx).
Qed.
End Locality.

Lemma clearDependentInputs_upstream_untouched_witness :
  (clearDependentInputs (graph_root [("A", ["B"])]) "A" abc_inputs).2 !! "A"
  = Some (Some (VStr "x")).
Proof.
  refine (clearDependentInputs_upstream_untouched (graph_root [("A", ["B"])]) "A"
            abc_inputs "A" _).
  intros Hc. inversion Hc as [x y Hd|x z y Hd Hz]; subst.
  - change ("A" ∈ ["B"]) in Hd. members Hd.
  - change (z ∈ ["B"]) in Hd. members Hd. subst z.
    inversion Hz as [x y Hd|x z y Hd _]; subst.
    + change ("A" ∈ []) in Hd. members Hd.
    + change (z ∈ []) in Hd. members Hd.
Defined.

Lemma ExecuteDashboard_registers_witness :
  let r := ExecuteDashboard (trees := specTrees) background "s2" "dashboard.region"
             {["region" := Some (VStr "eu")]} "ws" [] blank_world in
  r.1 = None ∧
  executions (executor r.2)
  = <["s2" := fresh (dom (heap blank_world))]> (executions (executor blank_world)) ∧
  published r.2 = published blank_world.
Proof.
  intros r.
  destruct (ExecuteDashboard_registers (trees := specTrees) background "s2"
              "dashboard.region" {["region" := Some (VStr "eu")]} "ws" []
              blank_world _ eq_refl eq_refl eq_refl)
    as (Hnil & Hreg & _ & _ & Hpub & _).
  split; [exact Hnil|]. split; [exact Hreg|exact Hpub].
Defined.

Lemma ExecuteDashboard_context_error_witness :
  (ExecuteDashboard (trees := specTrees) {| Err := Some Canceled |} "s1"
     "dashboard.region" ∅ "ws" [] (newWorld true)).1 = Some "context canceled".
Proof.
  apply (ExecuteDashboard_context_error (trees := specTrees));
    [reflexivity|reflexivity|discriminate].
Defined.

Lemma operations_keep_other_trees_witness :
  heap (ExecuteDashboard (trees := specTrees) background "s2" "dashboard.region"
          {["region" := Some (VStr "eu")]} "ws" [] blank_world).2 !! 0
  = heap blank_world !! 0.
Proof.
  assert (consistent blank_world) as Hw.
  { exact (ExecuteDashboard_consistent (trees := specTrees) background "s1"
             "dashboard.cascade" ∅ "ws" [] (newWorld true)
             (consistent_newWorld true)). }
  refine (proj1 (operations_keep_other_trees (trees := specTrees) background "s2"
                   "dashboard.region" {["region" := Some (VStr "eu")]} "ws" []
                   "region" blank_world Hw) "s1" 0 _ eq_refl).
  discriminate.
Defined.

Lemma ExecuteDashboard_replaces_witness :
  let r := ExecuteDashboard (trees := specTrees) background "s1" "dashboard.region"
             ∅ "ws" [] blank_world in
  (GetRunStatus <$> heap r.2 !! 0) = Some RunCanceled ∧
  executions (executor r.2) !! "s1" ≠ Some 0.
Proof.
  intros r.
  assert (registry_allocated blank_world) as Ha.
  { exact (proj1 (ExecuteDashboard_consistent (trees := specTrees) background "s1"
                    "dashboard.cascade" ∅ "ws" [] (newWorld true)
                    (consistent_newWorld true))). }
  destruct (ExecuteDashboard_replaces (trees := specTrees) background "s1"
              "dashboard.region" ∅ "ws" [] blank_world 0 Ha eq_refl)
    as (Hheap & Hreg & _).
  fold r in Hheap, Hreg. split; [|exact Hreg]. rewrite Hheap. reflexivity.
Defined.

Lemma ExecuteDashboard_starts_registered_witness :
  executions (executor blank_world) !! "s1" = Some 0 ∧
  is_Some (heap blank_world !! 0).
Proof.
  assert (GoExecute 0 background ∈
            effects (ExecuteDashboard (trees := specTrees) background "s1"
                       "dashboard.cascade" ∅ "ws" []) (newWorld true)) as Hin.
  { vm_compute. do 6 right. by left. }
  destruct (ExecuteDashboard_starts_registered (trees := specTrees) background "s1"
              "dashboard.cascade" ∅ "ws" [] (newWorld true) 0 background Hin)
    as (_ & _ & Hreg & Hheap).
  split; [exact Hreg|exact Hheap].
Defined.

(** ** The notice of cleared inputs *)

Lemma clearLoop_prefix rec l acc (m : Inputs) C m' :
  clearLoop rec l acc m = Some (C, m') → ∃ E, C = acc ++ E.
Proof.
  revert acc m. induction l as [|d rest IH]; intros acc m Hrun; simpl in Hrun.
  - injection Hrun as <- _. exists []. by rewrite app_nil_r.
  - destruct (non_nil m d); [|by apply IH in Hrun].
    destruct (rec d (<[d:=None]> m)) as [[Cd m1]|]; [|done].
    apply IH in Hrun as [E ->]. exists (Cd ++ E). by rewrite app_assoc.
Qed.

Lemma clearDependentInputs_prefix root x (m : Inputs) :
  ∃ E, (clearDependentInputs root x m).1 = GetInputsDependingOn root x ++ E.
Proof.
  pose proof (clearDependentInputs_enough_fuel root (S (live m)) x m) as Hrun.
  destruct (clearDependentInputs root x m) as [C m']. simpl in Hrun.
  rewrite clearLoop_guard in Hrun. by apply clearLoop_prefix in Hrun; [|lia].
Qed.

Section Notice.
Context {trees : TreeMethods}.

(** On a registered session, [OnInputChanged] publishes the notice of
    cleared inputs exactly when the changed input has a declared dependent,
    whether or not any of them held a value; the notice follows the lookup
    of the session at once, lists the declared dependents first, and no
    other such notice is published. *)
Theorem OnInputChanged_notice ctx sessionId inputs changedInput w t tree :
  executions (executor w) !! sessionId = Some t →
  heap w !! t = Some tree →
  let deps := GetInputsDependingOn (Root tree) changedInput in
  let c := clearDependentInputs (Root tree) changedInput inputs in
  (∃ more, c.1 = deps ++ more) ∧
  ∃ rest,
    effects (OnInputChanged ctx sessionId inputs changedInput) w
    = MapRead sessionId ::
      match deps with
      | [] => []
      | _ :: _ => [Publish (tree_workspace tree)
                     (InputValuesCleared c.1 (tree_sessionId tree) (tree_id tree))]
      end ++ rest ∧
    ∀ ws l s i, Publish ws (InputValuesCleared l s i) ∉ rest.
Proof.
  intros Hfound Hheap deps c.
  destruct (clearDependentInputs_prefix (Root tree) changedInput inputs) as [more Hmore].
  fold c deps in Hmore. split; [by exists more|].
  pose (notice := if 0 <? length c.1
                  then [Publish (tree_workspace tree)
                          (InputValuesCleared c.1 (tree_sessionId tree) (tree_id tree))]
                  else []).
  assert (match deps with
          | [] => []
          | _ :: _ => [Publish (tree_workspace tree)
                         (InputValuesCleared c.1 (tree_sessionId tree) (tree_id tree))]
          end = notice) as ->.
  { subst notice. rewrite Hmore. destruct deps as [|d deps'] eqn:Hdeps; [|done].
    assert (c = (deps, inputs)) as Hc.
    { apply clearDependentInputs_all_nil. intros y Hy. unfold dependent in Hy.
      fold deps in Hy. rewrite Hdeps in Hy. by apply elem_of_nil in Hy. }
    rewrite Hc, Hdeps in Hmore. simpl in Hmore. by rewrite <- Hmore. }
  pose proof (OnInputChanged_registered ctx sessionId inputs changedInput w t tree
                Hfound Hheap) as Hrun.
  cbv zeta in Hrun. fold c notice in Hrun.
  destruct (IsFinished (GetRunStatus tree) || _).
  - eexists. split.
    + apply effects_app. rewrite Hrun. cbn [snd].
      rewrite ExecuteDashboard_trace. cbn [with_trace trace].
      rewrite <- app_assoc. reflexivity.
    + intros ws l s i Hin.
      apply elem_of_app in Hin as [Hin|Hin].
      { destruct (executions _ !! sessionId); unfold cancel_trace in Hin; members Hin. }
      destruct (newDashboardExecutionTree _ _ _ _ _) as [tree'|err];
        [destruct (validateInputs _ _ _) as [err|]; [|destruct (Err ctx) as [ce|]]|];
        unfold start_trace in Hin; try destruct (0 <? size c.2);
        members Hin.
  - exists [TreeSetInputValues t c.2]. split.
    + apply effects_app. rewrite Hrun. simpl. by rewrite <- app_assoc.
    + intros ws l s i Hin. members Hin.
Qed.
End Notice.

Lemma OnInputChanged_notice_witness :
  ∃ rest,
    effects (OnInputChanged (trees := specTrees) background "s1" ∅ "A") blank_world
    = MapRead "s1" :: [Publish "ws" (InputValuesCleared ["B"] "s1" "exec-s1")] ++ rest.
Proof.
  destruct (OnInputChanged_notice (trees := specTrees) background "s1" ∅ "A"
              blank_world 0 _ eq_refl eq_refl) as (_ & rest & Heff & _).
  exists rest. exact Heff.
Defined.

(** ** The registry helpers *)

(** The registry behaves as a map: a session that has been set is found
    with the tree it was set to, a session that has been removed is not
    found, and neither changes what is found for another session. *)
Theorem registry_round_trip sessionId (t : nat) w :
  (getExecution sessionId (setExecution sessionId t w).2).1 = Some t ∧
  (getExecution sessionId (removeExecution sessionId w).2).1 = None ∧
  ∀ s, s ≠ sessionId →
    (getExecution s (setExecution sessionId t w).2).1 = (getExecution s w).1 ∧
    (getExecution s (removeExecution sessionId w).2).1 = (getExecution s w).1.
Proof.
  rewrite !getExecution_run. unfold setExecution, removeExecution. step.
  cbn [fst with_executions executor executions modify snd].
  split; [apply lookup_insert_eq|]. split; [apply lookup_delete_eq|].
  intros s Hs. rewrite !getExecution_run. cbn [fst].
  split; [by apply lookup_insert_ne|by apply lookup_delete_ne].
Qed.

Section Discipline.
Context {trees : TreeMethods}.

(** The lock discipline is kept by the three registry helpers, by
    [CancelExecutionForSession] and by [ExecuteDashboard]: the mutex is
    taken when free and released when held, the registry is read and
    written only with the mutex held, and no call on a tree and no start of
    a goroutine happens with the mutex held. *)
Theorem registry_discipline ctx sessionId rootResource inputs workspace opts (t : nat) w :
  disciplined false (effects (getExecution sessionId) w) = true ∧
  disciplined false (effects (setExecution sessionId t) w) = true ∧
  disciplined false (effects (removeExecution sessionId) w) = true ∧
  disciplined false (effects (CancelExecutionForSession ctx sessionId) w) = true ∧
  disciplined false
    (effects (ExecuteDashboard ctx sessionId rootResource inputs workspace opts) w)
  = true.
Proof.
  split; [|split; [|split; [|split]]].
  - by rewrite (effects_app _ _ [Lock; MapRead sessionId; Unlock])
      by (by rewrite getExecution_run).
  - rewrite (effects_app _ _ [Lock; MapWrite sessionId; Unlock]); [done|].
    unfold setExecution. step. simpl. by rewrite <- !app_assoc.
  - rewrite (effects_app _ _ [Lock; MapDelete sessionId; Unlock]); [done|].
    unfold removeExecution. step. simpl. by rewrite <- !app_assoc.
  - apply CancelExecutionForSession_disciplined.
  - apply ExecuteDashboard_disciplined.
Qed.
End Discipline.

(** ** Snapshots *)

Section Snapshot.
Context {Snapshot : Type}.

(** [LoadSnapshot] returns a snapshot exactly when the name is one of the
    snapshots of the workspace, its file exists and can be read, and the
    content decodes; the snapshot is the decoded content. *)
Theorem LoadSnapshot_ok_iff (io : SnapshotIO Snapshot) ctx sessionId snapshotName w snap :
  LoadSnapshot ctx sessionId snapshotName w = inl snap ↔
  ∃ snapshotPath snapshotContent,
    Snapshots w !! snapshotName = Some snapshotPath ∧
    FileExists snapshotPath = true ∧
    ReadFile snapshotPath = inl snapshotContent ∧
    Unmarshal snapshotContent = inl snap.
Proof.
  unfold LoadSnapshot. split.
  - destruct (Snapshots w !! snapshotName) as [path|]; [|done].
    destruct (FileExists path) eqn:Hex; [|done]. simpl.
    destruct (ReadFile path) as [content|] eqn:Hread; [|done].
    destruct (Unmarshal content) as [snap'|] eqn:Hjson; [|done].
    intros [= <-]. by exists path, content.
  - intros (path & content & -> & -> & -> & ->). done.
Qed.

(** A name that is not a snapshot of the workspace, and a snapshot whose
    file does not exist, are reported without reading or decoding any file:
    the error is the same whatever [os.ReadFile] and [json.Unmarshal] would
    do, and names the snapshot, the mod and the workspace path, or the file. *)
Theorem LoadSnapshot_not_found (io : SnapshotIO Snapshot) ctx sessionId snapshotName w
    (read : string → string + error) (decode : string → Snapshot + error) :
  let io' := {| FileExists := FileExists (SnapshotIO := io);
                ReadFile := read; Unmarshal := decode |} in
  (Snapshots w !! snapshotName = None →
     LoadSnapshot (io := io') ctx sessionId snapshotName w
     = inr ("snapshot " +:+ snapshotName +:+ " not found in " +:+ ModName w
            +:+ " (" +:+ Path w +:+ ")")) ∧
  (∀ snapshotPath,
     Snapshots w !! snapshotName = Some snapshotPath →
     FileExists (SnapshotIO := io) snapshotPath = false →
     LoadSnapshot (io := io') ctx sessionId snapshotName w
     = inr ("snapshot " +:+ snapshotPath +:+ " not does not exist")).
Proof.
  intros io'. unfold LoadSnapshot. split.
  - by intros ->.
  - intros path -> Hex. subst io'. cbn. by rewrite Hex.
Qed.
End Snapshot.

(** A workspace with one snapshot and a file system with its file. *)
Lemma LoadSnapshot_ok_iff_witness :
  let io := {| FileExists := λ p, String.eqb p "/mod/snap.pps";
               ReadFile := λ p, inl "{}";
               Unmarshal := λ c, if String.eqb c "{}" then inl (∅ : Inputs)
                                 else inr "unexpected end of JSON input" |} in
  LoadSnapshot (io := io) background "s1" "snap"
    {| Snapshots := {["snap" := "/mod/snap.pps"]}; ModName := "mod.local";
       Path := "/mod" |} = inl ∅.
Proof.
  intros io. apply (LoadSnapshot_ok_iff io).
  exists "/mod/snap.pps", "{}". repeat split.
Defined.

Lemma LoadSnapshot_not_found_witness :
  let io := {| FileExists := λ p, false;
               ReadFile := λ p, inl "{}";
               Unmarshal := λ c, inl (∅ : Inputs) |} in
  LoadSnapshot (io := io) background "s1" "other"
    {| Snapshots := {["snap" := "/mod/snap.pps"]}; ModName := "mod.local";
       Path := "/mod" |}
  = inr "snapshot other not found in mod.local (/mod)" ∧
  LoadSnapshot (io := io) background "s1" "snap"
    {| Snapshots := {["snap" := "/mod/snap.pps"]}; ModName := "mod.local";
       Path := "/mod" |}
  = inr "snapshot /mod/snap.pps not does not exist".
Proof.
  intros io.
  pose proof (LoadSnapshot_not_found io background "s1" "other"
                {| Snapshots := {["snap" := "/mod/snap.pps"]}; ModName := "mod.local";
                   Path := "/mod" |} (λ p, inl "{}") (λ c, inl (∅ : Inputs))) as H1.
  pose proof (LoadSnapshot_not_found io background "s1" "snap"
                {| Snapshots := {["snap" := "/mod/snap.pps"]}; ModName := "mod.local";
                   Path := "/mod" |} (λ p, inl "{}") (λ c, inl (∅ : Inputs))) as H2.
  split.
  - exact (proj1 H1 eq_refl).
  - exact (proj2 H2 "/mod/snap.pps" eq_refl eq_refl).
Defined.

(** ** The API service *)

Lemma applyOptions_app before after api :
  (applyOptions before api).2 = None →
  applyOptions (before ++ after) api = applyOptions after (applyOptions before api).1.
Proof.
  revert api. induction before as [|opt before IH]; intros api; simpl; [done|].
  destruct (opt api) as [api' [err|]]; [done|]. apply IH.
Qed.

(** [NewAPIService] stops at the first option that fails: it returns the
    service as that option left it, with its error, and the options after
    it are not applied. *)
Theorem NewAPIService_first_error ctx before bad after api err :
  (NewAPIService ctx before).2 = None →
  bad (NewAPIService ctx before).1 = (api, Some err) →
  NewAPIService ctx (before ++ bad :: after) = (api, Some err).
Proof.
  unfold NewAPIService. intros Hok Hbad.
  rewrite applyOptions_app by done. simpl. by rewrite Hbad.
Qed.

Lemma NewAPIService_first_error_witness :
  let bad : APIServiceOption := λ api, (api, Some "bad option") in
  let r := NewAPIService background
             ([WithWebSocket "melody"] ++ bad :: [WithWorkspace "ws"]) in
  r.2 = Some "bad option" ∧ api_workspace r.1 = None.
Proof.
  intros bad r.
  pose proof (NewAPIService_first_error background [WithWebSocket "melody"] bad
                [WithWorkspace "ws"] _ "bad option" eq_refl eq_refl) as H.
  assert (r = ((NewAPIService background [WithWebSocket "melody"]).1,
               Some "bad option")) as Hr by exact H.
  rewrite Hr. by split.
Defined.

(** With the options [WithWebSocket] and [WithWorkspace] alone,
    [NewAPIService] does not fail, and the service it returns has the
    context it was given, the status initialized and the HTTP port 9194. *)
Theorem NewAPIService_defaults ctx opts :
  Forall (λ opt, ∃ x, opt = WithWebSocket x ∨ opt = WithWorkspace x) opts →
  let r := NewAPIService ctx opts in
  r.2 = None ∧ api_ctx r.1 = ctx ∧ Status r.1 = "initialized" ∧
  HTTPPort r.1 = "9194".
Proof.
  intros Hopts. unfold NewAPIService.
  set (api := {| api_ctx := ctx; HTTPPort := "9194" |}).
  assert (api_ctx api = ctx ∧ Status api = "initialized" ∧ HTTPPort api = "9194")
    as Hinv by done.
  clearbody api. revert api Hinv.
  induction Hopts as [|opt opts (x & [->| ->]) _ IH]; intros api Hinv; simpl.
  - done.
  - apply IH. by simpl.
  - apply IH. by simpl.
Qed.

Lemma NewAPIService_defaults_witness :
  Status (NewAPIService background [WithWorkspace "ws"; WithWebSocket "melody"]).1
  = "initialized".
Proof.
  refine (proj1 (proj2 (proj2 (NewAPIService_defaults background
                   [WithWorkspace "ws"; WithWebSocket "melody"] _)))).
  repeat constructor; eexists; [right|left]; reflexivity.
Defined.

(** The option given last wins: after any options that do not fail, a final
    [WithWorkspace] sets the workspace of the service, and leaves its
    websocket as the options before set it. *)
Theorem NewAPIService_last_workspace ctx opts workspace :
  (NewAPIService ctx opts).2 = None →
  let r := NewAPIService ctx (opts ++ [WithWorkspace workspace]) in
  r.2 = None ∧ api_workspace r.1 = Some workspace ∧
  webSocket r.1 = webSocket (NewAPIService ctx opts).1.
Proof.
  unfold NewAPIService. intros Hok. by rewrite applyOptions_app by done.
Qed.

Lemma NewAPIService_last_workspace_witness :
  api_workspace
    (NewAPIService background ([WithWorkspace "old"; WithWebSocket "melody"]
                               ++ [WithWorkspace "new"])).1 = Some "new".
Proof.
  exact (proj1 (proj2 (NewAPIService_last_workspace background
                  [WithWorkspace "old"; WithWebSocket "melody"] "new" eq_refl))).
Defined.

(** ** Field names from json tags *)

Lemma beforeComma_commaFree tag : commaFree (beforeComma tag).
Proof.
  unfold commaFree. induction tag as [|c tag IH]; simpl; [tauto|].
  destruct (Ascii.eqb c ",") eqn:Hc; simpl; [tauto|].
  intros [->|Hin]; [|done]. by rewrite Ascii.eqb_refl in Hc.
Qed.

Lemma beforeComma_append name rest :
  commaFree name → beforeComma (name +:+ "," +:+ rest) = name.
Proof.
  unfold commaFree. induction name as [|c name IH]; simpl; intros Hfree; [done|].
  destruct (Ascii.eqb c ",") eqn:Hc.
  - apply Ascii.eqb_eq in Hc. destruct Hfree. by left.
  - f_equal. apply IH. intros Hin. apply Hfree. by right.
Qed.

Lemma beforeComma_id name : commaFree name → beforeComma name = name.
Proof.
  unfold commaFree. induction name as [|c name IH]; simpl; intros Hfree; [done|].
  destruct (Ascii.eqb c ",") eqn:Hc.
  - apply Ascii.eqb_eq in Hc. destruct Hfree. by left.
  - f_equal. apply IH. intros Hin. apply Hfree. by right.
Qed.

(** The name given for a field has no comma and is never a lone dash: a
    json tag whose part before the first comma is a dash alone, with or
    without options after it, yields the empty name. *)
Theorem jsonTagName_clean tag :
  commaFree (jsonTagName tag) ∧ jsonTagName tag ≠ "-" ∧
  (beforeComma tag = "-" → jsonTagName tag = "") ∧
  (∀ options, jsonTagName ("-" +:+ "," +:+ options) = "") ∧
  jsonTagName "-" = "".
Proof.
  split; [|split; [|split; [|split]]].
  - unfold jsonTagName. cbv zeta.
    destruct (String.eqb (beforeComma tag) "-"); [|apply beforeComma_commaFree].
    unfold commaFree. simpl. tauto.
  - unfold jsonTagName. cbv zeta.
    destruct (String.eqb (beforeComma tag) "-") eqn:Hdash; [done|].
    by apply String.eqb_neq.
  - intros Hname. unfold jsonTagName. cbv zeta. by rewrite Hname.
  - intros options. reflexivity.
  - reflexivity.
Qed.

Lemma jsonTagName_clean_witness :
  beforeComma "-,omitempty" = "-" ∧ jsonTagName "-,omitempty" = "".
Proof.
  split; [reflexivity|].
  exact (proj1 (proj2 (proj2 (jsonTagName_clean "-,omitempty"))) eq_refl).
Defined.

(** A json tag made of a name, with or without options after a comma,
    yields the name, when the name has no comma and is not a lone dash. *)
Theorem jsonTagName_name name options :
  commaFree name → name ≠ "-" →
  jsonTagName (name +:+ "," +:+ options) = name ∧ jsonTagName name = name.
Proof.
  intros Hfree Hdash. unfold jsonTagName. cbv zeta.
  rewrite beforeComma_append, beforeComma_id by done.
  apply String.eqb_neq in Hdash. by rewrite Hdash.
Qed.

Lemma jsonTagName_name_witness :
  jsonTagName "http_port,omitempty" = "http_port" ∧ jsonTagName "status" = "status".
Proof.
  split.
  - refine (proj1 (jsonTagName_name "http_port" "omitempty" _ _)).
    + unfold commaFree. simpl. intuition discriminate.
    + discriminate.
  - refine (proj2 (jsonTagName_name "status" "" _ _)).
    + unfold commaFree. simpl. intuition discriminate.
    + discriminate.
Defined.

(** ** Which error [ExecuteDashboard] returns *)

Section Errors.
Context {trees : TreeMethods}.

(** An error of the body, from the construction of the tree or from the
    validation, is returned as it is, whatever the state of the context: the
    deferred function only fills in an error when there is none. *)
Theorem ExecuteDashboard_own_error_first
    ctx sessionId rootResource inputs workspace opts w err :
  (ExecuteDashboard_body ctx sessionId rootResource inputs workspace opts w).1
  = Some err →
  (ExecuteDashboard ctx sessionId rootResource inputs workspace opts w).1 = Some err.
Proof.
  intros Hbody. rewrite ExecuteDashboard_unfold, Hbody.
  by rewrite ExecuteDashboard_deferred_error.
Qed.
End Errors.

Lemma ExecuteDashboard_own_error_first_witness :
  (ExecuteDashboard (trees := specTrees) expired "s1" "dashboard.unknown" ∅ "ws" []
     (newWorld true)).1 = Some "resource dashboard.unknown not found".
Proof.
  apply (ExecuteDashboard_own_error_first (trees := specTrees)). reflexivity.
Defined.
